(** * Plugin host start-up: descriptor merge and eager activation

    A shallow embedding of [src/vs/workbench/node/pluginHostMain.ts]:
    the patched [process.exit], [PluginHostMain.scanPlugins] (the merge of
    the builtin, user-installed and development descriptor lists),
    [readPlugins], [handleEagerPlugins],
    [handleWorkspaceContainsEagerPlugins] and [handlePluginTests].

    Promises are modelled by their settled state, callbacks run in program
    order, and every object the code mutates (message collector, registry,
    console, ...) is a field of an explicit [World] that is threaded
    through a small state monad.  Code that can throw returns a
    [Completion]. *)

From Stdlib Require Import List String Ascii Bool Arith ZArith Lia Permutation.
Import ListNotations.
Local Open Scope string_scope.
Local Open Scope list_scope.

(* ================================================================== *)
(** ** JavaScript values used by the module                            *)
(* ================================================================== *)

(** Values that travel through the rejection channel of a promise.  A
    single failure carries some error value; [TPromise.join] rejects with
    the (sparse) array of the errors of its inputs, kept here as the list
    of its defined indices. *)
#[warnings="-register-all"]
Inductive jsError : Type :=
| ErrorValue (description : string)
| JoinErrors (errors : list (nat * jsError)).

(** Modelled from the spec: [TPromise<A>], of vs/base/common/winjs.base,
    is an asynchronous completion that yields a result or fails; it is
    kept by the state it settles in.  [Pending] is a promise that never
    completes: none of its callbacks ever runs. *)
Inductive TPromise (A : Type) : Type :=
| Fulfilled (value : A)
| Rejected (error : jsError)
| Pending.
Arguments Fulfilled {A} value.
Arguments Rejected {A} error.
Arguments Pending {A}.

Definition isPending {A} (p : TPromise A) : bool :=
  match p with Pending => true | _ => false end.

Definition isRejected {A} (p : TPromise A) : bool :=
  match p with Rejected _ => true | _ => false end.

(** The results of the fulfilled inputs, in input order. *)
Fixpoint joinValues {A} (ps : list (TPromise A)) : list A :=
  match ps with
  | [] => []
  | Fulfilled a :: r => a :: joinValues r
  | _ :: r => joinValues r
  end.

(** The errors of the rejected inputs, keyed by their index. *)
Fixpoint joinErrors {A} (i : nat) (ps : list (TPromise A)) : list (nat * jsError) :=
  match ps with
  | [] => []
  | Rejected e :: r => (i, e) :: joinErrors (S i) r
  | _ :: r => joinErrors (S i) r
  end.

(** Modelled from the spec: [TPromise.join(ps)] awaits all of its inputs,
    never a part of them.  By the contract of the promise library it
    fulfils with the array of results when all inputs fulfilled, and
    rejects, once all have settled, with the array of errors when one of
    them rejected.  (Cancellation is not modelled: nothing here is
    cancelled.) *)
Definition join {A} (ps : list (TPromise A)) : TPromise (list A) :=
  if existsb isPending ps then Pending
  else match joinErrors 0 ps with
       | [] => Fulfilled (joinValues ps)
       | errors => Rejected (JoinErrors errors)
       end.

(** Truthiness of a string that may be [undefined]: [undefined], [null]
    and the empty string are falsy. *)
Definition truthy (s : option string) : bool :=
  match s with
  | None => false
  | Some s => negb (s =? "")
  end.

(** How a piece of code ends: it returns a value or throws. *)
Inductive Completion (A : Type) : Type :=
| Returned (value : A)
| Threw (error : jsError).
Arguments Returned {A} value.
Arguments Threw {A} error.

(** The [TypeError] of a call of something that is not a function. *)
Definition notAFunction : jsError :=
  ErrorValue "TypeError: resultingPluginsMap.hasOwnProperty is not a function".

(** The value of a decimal digit. *)
Definition digit (c : ascii) : option N :=
  let n := N_of_ascii c in
  if ((48 <=? n) && (n <=? 57))%N then Some (n - 48)%N else None.

(** The number a string of decimal digits denotes, after [acc]. *)
Fixpoint decimal (s : string) (acc : N) : option N :=
  match s with
  | EmptyString => Some acc
  | String c r =>
      match digit c with
      | Some d => decimal r (10 * acc + d)%N
      | None => None
      end
  end.

(** Whether a property name is an array index, and which: the decimal
    numeral, without a leading zero, of an integer below 2^32 - 1. *)
Definition arrayIndex (s : string) : option N :=
  match s with
  | EmptyString => None
  | String c r =>
      if (c =? "0")%char then (if r =? "" then Some 0%N else None)
      else match decimal s 0 with
           | Some n => if (n <? 4294967295)%N then Some n else None
           | None => None
           end
  end.

(** [s.substr(start)]: the rest of [s] from index [start]. *)
Definition substr (s : string) (start : nat) : string :=
  substring start (String.length s - start) s.

(* ------------------------------------------------------------------ *)
(** *** Objects used as string-keyed maps

    [resultingPluginsMap] and [desiredFilesMap] are objects created by
    [{}] and used as maps.  Such an object is kept as the list of its own
    properties in the order they were created; assigning an existing key
    keeps the key's place.  Its prototype is [Object.prototype], whose
    accessor [__proto__] and method [hasOwnProperty] the code runs into:

    - assigning the key [__proto__] runs the inherited setter, which
      creates no own property (it replaces the prototype by an object
      value and ignores any other value);
    - [o.hasOwnProperty(k)] looks the method up on the object first: once
      an own property named [hasOwnProperty] exists, its value (here a
      description, never a function) is called, which throws.

    The prototype itself is not kept: the code reads a property only where
    it is an own property (under the guard and over [Object.keys]), and a
    description that has become the prototype has, with the fields of
    [IPluginDescription], no property named [hasOwnProperty]. *)
(* ------------------------------------------------------------------ *)

(** [Object.keys] lists the own keys that are array indices first, in
    ascending order, then the other keys in the order of their creation. *)
Fixpoint insertIndex (x : N * string) (l : list (N * string)) : list (N * string) :=
  match l with
  | [] => [x]
  | y :: r => if (fst x <=? fst y)%N then x :: l else y :: insertIndex x r
  end.

Definition sortIndices (l : list (N * string)) : list (N * string) :=
  fold_right insertIndex [] l.

Definition indexKeys (keys : list string) : list (N * string) :=
  flat_map (fun k => match arrayIndex k with
                     | Some n => [(n, k)]
                     | None => []
                     end) keys.

Definition namedKeys (keys : list string) : list string :=
  filter (fun k => match arrayIndex k with
                   | Some _ => false
                   | None => true
                   end) keys.

Definition keyOrder (keys : list string) : list string :=
  map snd (sortIndices (indexKeys keys)) ++ namedKeys keys.

Section JsObject.
Context {V : Type}.

Definition JsObject : Type := list (string * V).

(** [Object.prototype.hasOwnProperty] applied to [o] and [k]. *)
Fixpoint hasOwnProperty (o : JsObject) (k : string) : bool :=
  match o with
  | [] => false
  | (k', _) :: r => if k =? k' then true else hasOwnProperty r k
  end.

(** The call [o.hasOwnProperty(k)]. *)
Definition callHasOwnProperty (o : JsObject) (k : string) : Completion bool :=
  if hasOwnProperty o "hasOwnProperty" then Threw notAFunction
  else Returned (hasOwnProperty o k).

(** [o[k]] for an own key [k]; [None] when [k] is no own key. *)
Fixpoint getProp (o : JsObject) (k : string) : option V :=
  match o with
  | [] => None
  | (k', v) :: r => if k =? k' then Some v else getProp r k
  end.

(** Creating or updating the own property [k]. *)
Fixpoint putOwn (o : JsObject) (k : string) (v : V) : JsObject :=
  match o with
  | [] => [(k, v)]
  | (k', v') :: r =>
      if k =? k' then (k, v) :: r else (k', v') :: putOwn r k v
  end.

(** [o[k] = v] *)
Definition setProp (o : JsObject) (k : string) (v : V) : JsObject :=
  if k =? "__proto__" then o else putOwn o k v.

(** The own keys in the order of their creation. *)
Definition ownKeys (o : JsObject) : list string := map fst o.

(** [Object.keys(o)] *)
Definition Object_keys (o : JsObject) : list string := keyOrder (ownKeys o).

(** [Object.keys(o).map(name => o[name])]; a key without a value
    contributes nothing (there is none: every key is an own key). *)
Definition Object_values (o : JsObject) : list V :=
  flat_map (fun name => match getProp o name with
                        | Some v => [v]
                        | None => []
                        end) (Object_keys o).
End JsObject.
Arguments JsObject V : clear implicits.

(** [l.forEach(f)] where [f] updates the state [S] it closes over. *)
Definition forEach {A S : Type} (l : list A) (f : A -> S -> S) (s : S) : S :=
  fold_left (fun s a => f a s) l s.

(* ================================================================== *)
(** ** Data model                                                      *)
(* ================================================================== *)

(** [Severity] (vs/base/common/severity), as far as the collector uses it. *)
Inductive Severity : Type := Info | Warning | Error.

(** The payload of a message: a text, or the error object handed to
    [collector.error]. *)
Inductive MessageBody : Type :=
| Text (s : string)
| ErrorObject (e : jsError).

(** [IMessage] *)
Record IMessage : Type := mkMessage {
  type : Severity;
  message : MessageBody;
  source : string
}.

(** [IPluginDescription], the fields this file reads.  [activationEvents]
    is optional. *)
Record IPluginDescription : Type := mkPlugin {
  id : string;
  extensionFolderPath : string;
  activationEvents : option (list string)
}.

(** [PluginsMessageCollector]: the messages pushed so far, oldest first. *)
Definition PluginsMessageCollector : Type := list IMessage.

Definition collector_info (c : PluginsMessageCollector) (src msg : string) :=
  c ++ [mkMessage Info (Text msg) src].
Definition collector_warn (c : PluginsMessageCollector) (src msg : string) :=
  c ++ [mkMessage Warning (Text msg) src].
Definition collector_error (c : PluginsMessageCollector) (src : string) (err : jsError) :=
  c ++ [mkMessage Error (ErrorObject err) src].

(* ================================================================== *)
(** ** The merge inside [PluginHostMain.scanPlugins]                   *)
(* ================================================================== *)

(** The merge while its three loops run: the two objects the [forEach]
    callbacks close over, or, once a callback has thrown, the error and
    the collector as it then was (the map is lost with the callback). *)
Inductive MergeRun : Type :=
| Running (resultingPluginsMap : JsObject IPluginDescription)
          (collector : PluginsMessageCollector)
| Failed (error : jsError) (collector : PluginsMessageCollector).

Definition overwritingMessage (replaced replacing : IPluginDescription) : string :=
  "Overwriting extension " ++ extensionFolderPath replaced
    ++ " with " ++ extensionFolderPath replacing.

Definition loadingMessage (p : IPluginDescription) : string :=
  "Loading development extension at " ++ extensionFolderPath p.

(** [if (map.hasOwnProperty(p.id)) { collector.warn('', 'Overwriting
    extension ' + map[p.id].extensionFolderPath + ' with ' + ...); }]:
    the collector after it, unless the guard throws. *)
Definition warnIfOwn (m : JsObject IPluginDescription) (p : IPluginDescription)
    (c : PluginsMessageCollector) : Completion PluginsMessageCollector :=
  match callHasOwnProperty m (id p) with
  | Threw e => Threw e
  | Returned true =>
      Returned match getProp m (id p) with
               | Some old => collector_warn c "" (overwritingMessage old p)
               | None => c
               end
  | Returned false => Returned c
  end.

Definition addBuiltin (builtinPlugin : IPluginDescription) (st : MergeRun) : MergeRun :=
  match st with
  | Failed _ _ => st
  | Running resultingPluginsMap collector =>
      Running (setProp resultingPluginsMap (id builtinPlugin) builtinPlugin) collector
  end.

Definition addUser (userPlugin : IPluginDescription) (st : MergeRun) : MergeRun :=
  match st with
  | Failed _ _ => st
  | Running resultingPluginsMap collector =>
      match warnIfOwn resultingPluginsMap userPlugin collector with
      | Threw e => Failed e collector
      | Returned collector' =>
          Running (setProp resultingPluginsMap (id userPlugin) userPlugin) collector'
      end
  end.

Definition addDev (extensionDevPlugin : IPluginDescription) (st : MergeRun) : MergeRun :=
  match st with
  | Failed _ _ => st
  | Running resultingPluginsMap collector =>
      let informed := collector_info collector "" (loadingMessage extensionDevPlugin) in
      match warnIfOwn resultingPluginsMap extensionDevPlugin informed with
      | Threw e => Failed e informed
      | Returned collector' =>
          Running (setProp resultingPluginsMap (id extensionDevPlugin) extensionDevPlugin)
                  collector'
      end
  end.

(** The three loops.  A callback that throws ends its loop and all that
    follows it. *)
Definition mergeLoops (builtinPlugins userPlugins extensionDevPlugins : list IPluginDescription)
    (collector : PluginsMessageCollector) : MergeRun :=
  forEach extensionDevPlugins addDev
    (forEach userPlugins addUser
       (forEach builtinPlugins addBuiltin (Running [] collector))).

(** The callback of [TPromise.join([...]).then(...)]: the merged list it
    returns or the error it throws, and the collector after it. *)
Definition mergePlugins (builtinPlugins userPlugins extensionDevPlugins : list IPluginDescription)
    (collector : PluginsMessageCollector)
    : Completion (list IPluginDescription) * PluginsMessageCollector :=
  match mergeLoops builtinPlugins userPlugins extensionDevPlugins collector with
  | Running resultingPluginsMap collector => (Returned (Object_values resultingPluginsMap), collector)
  | Failed e collector => (Threw e, collector)
  end.

(* ================================================================== *)
(** ** The objects the start-up sequence mutates                       *)
(* ================================================================== *)

Record World : Type := mkWorld {
  (** the [PluginsMessageCollector] created by [readPlugins] *)
  collector : PluginsMessageCollector;
  (** [PluginsRegistry]: the descriptions registered so far *)
  registry : list IPluginDescription;
  (** the arguments of the calls of [pluginService.registrationDone] *)
  registrationDone : list (list IMessage);
  (** the arguments of the calls of [pluginService.activateByEvent] *)
  activated : list string;
  (** the arguments (path, result) of the calls of [pfs.fileExistsWithResult] *)
  probed : list (string * string);
  (** what was written with [console.error] *)
  consoleError : list jsError;
  (** the codes of the armed [setTimeout(() => exit(code), 500)] *)
  exitTimers : list Z
}.

Definition setCollector (c : PluginsMessageCollector) (w : World) : World :=
  mkWorld c (registry w) (registrationDone w) (activated w) (probed w)
          (consoleError w) (exitTimers w).

(** A computation that reads and updates the [World]. *)
Definition M (A : Type) : Type := World -> A * World.

Definition ret {A} (a : A) : M A := fun w => (a, w).

Definition bind {A B} (c : M A) (k : A -> M B) : M B :=
  fun w => let (a, w') := c w in k a w'.

Declare Scope host_scope.
Delimit Scope host_scope with host.
Notation "x <- c ;; k" := (bind c (fun x => k))
  (at level 61, c at next level, right associativity) : host_scope.
Notation "c ;; k" := (bind c (fun _ => k))
  (at level 61, right associativity) : host_scope.
Local Open Scope host_scope.

(** [l.map(f)] for an [f] with effects, left to right. *)
Fixpoint mapM {A B} (f : A -> M B) (l : list A) : M (list B) :=
  match l with
  | [] => ret []
  | a :: r => b <- f a ;; bs <- mapM f r ;; ret (b :: bs)
  end.

(** [l.forEach(f)] for an [f] with effects on the [World]. *)
Fixpoint forEachM {A} (l : list A) (f : A -> M unit) : M unit :=
  match l with
  | [] => ret tt
  | a :: r => f a ;; forEachM r f
  end.

(** [p.then(onFulfilled)] *)
Definition then_ {A B} (p : TPromise A) (onFulfilled : A -> M (TPromise B)) : M (TPromise B) :=
  match p with
  | Fulfilled a => onFulfilled a
  | Rejected e => ret (Rejected e)
  | Pending => ret Pending
  end.

(** [p.then(null, onRejected)] *)
Definition then_null {A} (p : TPromise A) (onRejected : jsError -> M (TPromise A)) : M (TPromise A) :=
  match p with
  | Rejected e => onRejected e
  | _ => ret p
  end.

(* ------------------------------------------------------------------ *)
(** *** Effects on the world                                           *)
(* ------------------------------------------------------------------ *)

(** [new PluginsMessageCollector()] *)
Definition newCollector : M unit :=
  fun w => (tt, setCollector [] w).

(** The messages a scanner pushed on the collector it was given. *)
Definition pushMessages (ms : list IMessage) : M unit :=
  fun w => (tt, setCollector (collector w ++ ms) w).

(** [collector.error(source, err)] *)
Definition collectorError (src : string) (err : jsError) : M unit :=
  fun w => (tt, setCollector (collector_error (collector w) src err) w).

(** [collector.getMessages()] *)
Definition getMessages : M (list IMessage) :=
  fun w => (collector w, w).

(** Modelled from the spec: [PluginsRegistry.registerPlugins], of
    vs/platform/plugins/common/pluginsRegistry, keeps the descriptions it
    is given for the later activation queries. *)
Definition registerPlugins (extensions : list IPluginDescription) : M unit :=
  fun w => (tt, mkWorld (collector w) (registry w ++ extensions) (registrationDone w)
                        (activated w) (probed w) (consoleError w) (exitTimers w)).

(** Modelled from the spec: [PluginsRegistry.getAllPluginDescriptions]
    returns the registered descriptions. *)
Definition getAllPluginDescriptions : M (list IPluginDescription) :=
  fun w => (registry w, w).

(** [pluginService.registrationDone(messages)], recorded. *)
Definition pluginService_registrationDone (messages : list IMessage) : M unit :=
  fun w => (tt, mkWorld (collector w) (registry w) (registrationDone w ++ [messages])
                        (activated w) (probed w) (consoleError w) (exitTimers w)).

(** The call [pluginService.activateByEvent(ev)], recorded. *)
Definition recordActivation (ev : string) : M unit :=
  fun w => (tt, mkWorld (collector w) (registry w) (registrationDone w)
                        (activated w ++ [ev]) (probed w) (consoleError w) (exitTimers w)).

(** The call [pfs.fileExistsWithResult(path, result)], recorded. *)
Definition recordProbe (path result : string) : M unit :=
  fun w => (tt, mkWorld (collector w) (registry w) (registrationDone w)
                        (activated w) (probed w ++ [(path, result)]) (consoleError w)
                        (exitTimers w)).

(** [console.error(err)] *)
Definition console_error (err : jsError) : M unit :=
  fun w => (tt, mkWorld (collector w) (registry w) (registrationDone w)
                        (activated w) (probed w) (consoleError w ++ [err]) (exitTimers w)).

(** [gracefulExit(code)]: arms [setTimeout(() => exit(code), 500)]. *)
Definition gracefulExit (code : Z) : M unit :=
  fun w => (tt, mkWorld (collector w) (registry w) (registrationDone w)
                        (activated w) (probed w) (consoleError w) (exitTimers w ++ [code])).

(* ================================================================== *)
(** ** The services and the configuration of a [PluginHostMain]        *)
(* ================================================================== *)

(** [contextService.getConfiguration().env], the fields read here. *)
Record Env : Type := mkEnv {
  userPluginsHome : option string;
  pluginDevelopmentPath : option string;
  version : string;
  pluginTestsPath : option string
}.

Record URI : Type := mkURI { fsPath : string }.

(** [contextService.getWorkspace()] is a workspace or nothing, and a
    workspace may lack a [resource]. *)
Record IWorkspace : Type := mkWorkspace { resource : option URI }.

Record IWorkspaceContextService : Type := mkContextService {
  env : Env;
  workspace : option IWorkspace
}.

(** [IPluginService]: how [activateByEvent(ev)] settles. *)
Record IPluginService : Type := mkPluginService {
  activateByEvent : string -> TPromise unit
}.

Record PluginHostMain : Type := mkPluginHostMain {
  contextService : IWorkspaceContextService;
  pluginService : IPluginService
}.

(** What happens, one thing after the other, once [run(testsRoot, clb)] of
    a test runner is called: [clb] is called, with an error (given by its
    [toString()]) or without one and with a number of failures or without
    one, or [run] throws (what it throws given by its text). *)
Inductive RunEvent : Type :=
| CallsBack (error : option string) (failures : option Z)
| RunThrows (exception : string).

(** All that a call of [run] brings about, in order; nothing, when [clb]
    is never called and [run] returns. *)
Definition TestRun : Type := list RunEvent.

(** What [require.__$__nodeRequire(path)] does: throws ([requireError],
    by its [toString()]), or loads a module that has a [run] function or
    has none. *)
Inductive RequireResult : Type :=
| Throws (requireError : string)
| Loaded (run : option TestRun).

(* ================================================================== *)
(** ** [PluginHostMain]                                                *)
(* ================================================================== *)

Section Host.

(** The modules this file imports and only calls. *)

(** [BUILTIN_PLUGINS_PATH] *)
Variable BUILTIN_PLUGINS_PATH : string.

(** [PluginScanner.scanPlugins(version, collector, path, isBuiltin)]:
    the messages it pushes on the collector and the promise it returns. *)
Variable PluginScanner_scanPlugins :
  string -> string -> bool -> list IMessage * TPromise (list IPluginDescription).

(** [PluginScanner.scanOneOrMultiplePlugins(version, collector, path, isBuiltin)] *)
Variable PluginScanner_scanOneOrMultiplePlugins :
  string -> string -> bool -> list IMessage * TPromise (list IPluginDescription).

(** [paths.join(a, b)] *)
Variable paths_join : string -> string -> string.

(** The file system: whether a path exists. *)
Variable exists_ : string -> bool.

(** [require.__$__nodeRequire(path)] *)
Variable nodeRequire : string -> RequireResult.

(** A scan started with the collector: its messages reach the
    collector, its promise is kept.  (The scans run side by side; their
    messages are taken in the order the scans are started.) *)
Definition startScan (scan : list IMessage * TPromise (list IPluginDescription))
    : M (TPromise (list IPluginDescription)) :=
  pushMessages (fst scan) ;; ret (snd scan).

(** The promise [then] returns for a callback that ended: fulfilled with
    what it returned, rejected with what it threw. *)
Definition settle {A} (c : Completion A) : TPromise A :=
  match c with
  | Returned a => Fulfilled a
  | Threw e => Rejected e
  end.

(** The callback given to [TPromise.join([...]).then] in [scanPlugins]. *)
Definition mergeCallback (results : list (list IPluginDescription))
    : M (TPromise (list IPluginDescription)) :=
  let builtinPlugins := nth 0 results [] in
  let userPlugins := nth 1 results [] in
  let extensionDevPlugins := nth 2 results [] in
  fun w =>
    let (merged, c) :=
      mergePlugins builtinPlugins userPlugins extensionDevPlugins (collector w) in
    (settle merged, setCollector c w).

(** [PluginHostMain.scanPlugins(collector, builtinPluginsPath,
    userInstallPath, pluginDevelopmentPath, version)] *)
Definition scanPlugins (builtinPluginsPath : string)
    (userInstallPath pluginDevelopmentPath : option string) (version : string)
    : M (TPromise (list IPluginDescription)) :=
  builtinPlugins <-
    startScan (PluginScanner_scanPlugins version builtinPluginsPath true) ;;
  userPlugins <-
    match userInstallPath with
    | Some path =>
        if truthy userInstallPath
        then startScan (PluginScanner_scanPlugins version path false)
        else ret (Fulfilled [])
    | None => ret (Fulfilled [])
    end ;;
  developedPlugins <-
    match pluginDevelopmentPath with
    | Some path =>
        if truthy pluginDevelopmentPath
        then startScan (PluginScanner_scanOneOrMultiplePlugins version path false)
        else ret (Fulfilled [])
    | None => ret (Fulfilled [])
    end ;;
  then_ (join [builtinPlugins; userPlugins; developedPlugins]) mergeCallback.

(** [this.pluginService.activateByEvent(ev).then(null, err => console.error(err))] *)
Definition activateAndLog (this : PluginHostMain) (ev : string) : M unit :=
  recordActivation ev ;;
  match activateByEvent (pluginService this) ev with
  | Rejected err => console_error err
  | _ => ret tt
  end.

(** The body of the loop over one description in
    [handleWorkspaceContainsEagerPlugins]. *)
Definition addDesiredFile (activationEvent : string) (desiredFilesMap : JsObject bool)
    : JsObject bool :=
  if prefix "workspaceContains:" activationEvent then
    let fileName := substr activationEvent (String.length "workspaceContains:") in
    setProp desiredFilesMap fileName true
  else desiredFilesMap.

Definition addDesiredFiles (desc : IPluginDescription) (desiredFilesMap : JsObject bool)
    : JsObject bool :=
  match activationEvents desc with
  | None => desiredFilesMap
  | Some activationEvents => forEach activationEvents addDesiredFile desiredFilesMap
  end.

(** Modelled from the spec: [pfs.fileExistsWithResult(path, result)], of
    vs/base/node/pfs, probes the existence of [path] (a check that
    reports false on any access error and never fails) and fulfils with
    [result] when it exists and with [null] otherwise. *)
Definition fileExistsWithResult (path result : string) : M (TPromise (option string)) :=
  recordProbe path result ;;
  ret (Fulfilled (if exists_ path then Some result else None)).

(** [!existingFileName]: [null] and the empty string are falsy. *)
Definition falsy (existingFileName : option string) : bool :=
  negb (truthy existingFileName).

(** The callback of the [forEach] over the probe results. *)
Definition activateExisting (this : PluginHostMain) (existingFileName : option string)
    : M unit :=
  if falsy existingFileName then ret tt
  else match existingFileName with
       | Some name => activateAndLog this ("workspaceContains:" ++ name)
       | None => ret tt
       end.

(** [handleWorkspaceContainsEagerPlugins()] *)
Definition handleWorkspaceContainsEagerPlugins (this : PluginHostMain)
    : M (TPromise unit) :=
  match workspace (contextService this) with
  | None => ret (Fulfilled tt)
  | Some workspace =>
      match resource workspace with
      | None => ret (Fulfilled tt)
      | Some resource =>
          let folderPath := fsPath resource in
          descriptions <- getAllPluginDescriptions ;;
          let desiredFilesMap := forEach descriptions addDesiredFiles [] in
          probes <- mapM (fun fileName =>
                            fileExistsWithResult (paths_join folderPath fileName) fileName)
                         (Object_keys desiredFilesMap) ;;
          then_ (join probes) (fun fileNames =>
            forEachM fileNames (activateExisting this) ;;
            ret (Fulfilled tt))
      end
  end.

(** [handleEagerPlugins()] *)
Definition handleEagerPlugins (this : PluginHostMain) : M (TPromise unit) :=
  activateAndLog this "*" ;;
  handleWorkspaceContainsEagerPlugins this.

(** [failures && failures > 0 ? 1 : 0] *)
Definition exitCodeOf (failures : option Z) : Z :=
  match failures with
  | Some n => if (0 <? n)%Z then 1%Z else 0%Z
  | None => 0%Z
  end.

Definition pluginTestError (path : string) : string :=
  "Path " ++ path ++ " does not point to a valid extension test runner.".

(** The state of [new TPromise<void>((c, e) => { testRunner.run(...) })]:
    the first thing that happens settles it, a callback by its error and
    an exception of [run] by rejecting; what happens later does not
    change it. *)
Definition runPromise (run : TestRun) : TPromise unit :=
  match run with
  | [] => Pending
  | CallsBack (Some e) _ :: _ => Rejected (ErrorValue e)
  | CallsBack None _ :: _ => Fulfilled tt
  | RunThrows e :: _ => Rejected (ErrorValue e)
  end.

(** The callback given to [run]: after settling the promise it always
    calls [gracefulExit]. *)
Definition runEvent (ev : RunEvent) : M unit :=
  match ev with
  | CallsBack _ failures => gracefulExit (exitCodeOf failures)
  | RunThrows _ => ret tt
  end.

(** [handlePluginTests()] *)
Definition handlePluginTests (this : PluginHostMain) : M (TPromise unit) :=
  let env := env (contextService this) in
  if negb (truthy (pluginTestsPath env)) || negb (truthy (pluginDevelopmentPath env))
  then ret (Fulfilled tt)
  else
    match pluginTestsPath env with
    | None => ret (Fulfilled tt)
    | Some path =>
        match nodeRequire path with
        | Loaded (Some run) =>
            forEachM run runEvent ;;
            ret (runPromise run)
        | Loaded None =>
            gracefulExit 1 ;;
            ret (Rejected (ErrorValue (pluginTestError path)))
        | Throws requireError =>
            gracefulExit 1 ;;
            ret (Rejected (ErrorValue requireError))
        end
    end.

(** [readPlugins()] *)
Definition readPlugins (this : PluginHostMain) : M (TPromise unit) :=
  newCollector ;;
  let env := env (contextService this) in
  scanned <- scanPlugins BUILTIN_PLUGINS_PATH (userPluginsHome env)
               (pluginDevelopmentPath env) (version env) ;;
  recovered <- then_null scanned (fun err =>
                 collectorError "" err ;;
                 ret (Fulfilled [])) ;;
  registered <- then_ recovered (fun extensions =>
                  registerPlugins extensions ;;
                  messages <- getMessages ;;
                  pluginService_registrationDone messages ;;
                  ret (Fulfilled tt)) ;;
  eager <- then_ registered (fun _ => handleEagerPlugins this) ;;
  then_ eager (fun _ => handlePluginTests this).

(** [start()] *)
Definition start (this : PluginHostMain) : M (TPromise unit) :=
  readPlugins this.

End Host.

(* ================================================================== *)
(** ** The patched [process.exit]                                      *)
(* ================================================================== *)

Module ProcessExit.

(** The functions [process.exit] holds before and after the patch. *)
Inductive ExitFunction : Type :=
| NativeExit      (** node's own [process.exit] *)
| PreventedExit.  (** [function() { const err = new Error(...); console.warn(err.stack); }] *)

(** What [console.warn] received: the stack of an [Error] with a message. *)
Inductive Warned : Type :=
| StackOf (errorMessage : string).

Record Process : Type := mkProcess {
  (** the property [process.exit] *)
  process_exit : ExitFunction;
  (** [Some code] once the process has terminated, [code] being the
      argument the native exit was given *)
  terminated : option (option Z);
  (** what was written with [console.warn] *)
  consoleWarn : list Warned
}.

Definition preventedMessage : string :=
  "An extension called process.exit() and this was prevented.".

(** Calling an exit function with arguments.  A terminated process runs
    no code. *)
Definition call (f : ExitFunction) (args : list (option Z)) (p : Process) : Process :=
  match terminated p with
  | Some _ => p
  | None =>
      match f with
      | NativeExit => mkProcess (process_exit p) (Some (hd None args)) (consoleWarn p)
      | PreventedExit =>
          mkProcess (process_exit p) None (consoleWarn p ++ [StackOf preventedMessage])
      end
  end.

(** The module's own state: the constant [nativeExit]. *)
Record Module_ : Type := mkModule { nativeExit : ExitFunction }.

(** Loading the module: [const nativeExit = process.exit.bind(process);
    process.exit = function() {...};] *)
Definition load (p : Process) : Module_ * Process :=
  (mkModule (process_exit p),
   mkProcess PreventedExit (terminated p) (consoleWarn p)).

(** [export function exit(code?: number) { nativeExit(code); }] *)
Definition exit (m : Module_) (code : option Z) (p : Process) : Process :=
  call (nativeExit m) [code] p.

(** [process.exit(...args)], as any code of the process may call it. *)
Definition callProcessExit (args : list (option Z)) (p : Process) : Process :=
  call (process_exit p) args p.

(** The calls that reach an exit function once the module is loaded. *)
Inductive Call : Type :=
| ProcessExitCall (args : list (option Z))   (** [process.exit(...)] *)
| ExportedExitCall (code : option Z).        (** the module's [exit(code)] *)

Definition step (m : Module_) (c : Call) (p : Process) : Process :=
  match c with
  | ProcessExitCall args => callProcessExit args p
  | ExportedExitCall code => exit m code p
  end.

Definition run (m : Module_) (calls : list Call) (p : Process) : Process :=
  forEach calls (step m) p.

Definition isExported (c : Call) : bool :=
  match c with ExportedExitCall _ => true | _ => false end.

End ProcessExit.

(* ================================================================== *)
(** ** What the merge is expected to compute, from the input lists     *)
(* ================================================================== *)

Definition ids (l : list IPluginDescription) : list string := map id l.

(** The last description of [l] that has the id [i]. *)
Fixpoint findLast (i : string) (l : list IPluginDescription) : option IPluginDescription :=
  match l with
  | [] => None
  | p :: r =>
      match findLast i r with
      | Some q => Some q
      | None => if i =? id p then Some p else None
      end
  end.

(** The description the map holds for [i] after the assignments of [l]:
    none under the key [__proto__], which is never created, and else the
    last description of [l] with the id [i]. *)
Definition lastStored (i : string) (l : list IPluginDescription)
    : option IPluginDescription :=
  if i =? "__proto__" then None else findLast i l.

(** Whether the map has an own property named [hasOwnProperty] after the
    assignments of [l]. *)
Definition shadowed (l : list IPluginDescription) : bool :=
  existsb (fun p => id p =? "hasOwnProperty") l.

(** The descriptions whose id can be a key of the map. *)
Definition storable (p : IPluginDescription) : bool :=
  negb (id p =? "__proto__").

Definition overwriteMessage (replaced replacing : IPluginDescription) : IMessage :=
  mkMessage Warning (Text (overwritingMessage replaced replacing)) "".

Definition loadingInfo (p : IPluginDescription) : IMessage :=
  mkMessage Info (Text (loadingMessage p)) "".

(** The warning for inserting [p] after the descriptions [seen]: one if
    the map holds a description for the id of [p], naming it, and none
    otherwise. *)
Definition overwriteWarning (seen : list IPluginDescription) (p : IPluginDescription)
    : list IMessage :=
  match lastStored (id p) seen with
  | Some old => [overwriteMessage old p]
  | None => []
  end.

(** The warnings of a source inserted, in its order, after [seen]. *)
Fixpoint overwriteWarnings (seen l : list IPluginDescription) : list IMessage :=
  match l with
  | [] => []
  | p :: r => overwriteWarning seen p ++ overwriteWarnings (seen ++ [p]) r
  end.

(** The diagnostics of the development source inserted after [seen]: for
    each description its information message, then its warning if any. *)
Fixpoint devDiagnostics (seen l : list IPluginDescription) : list IMessage :=
  match l with
  | [] => []
  | p :: r => (loadingInfo p :: overwriteWarning seen p) ++ devDiagnostics (seen ++ [p]) r
  end.

Definition isWarning (m : IMessage) : bool :=
  match type m with Warning => true | _ => false end.

(** The names declared by [workspaceContains:<name>] events. *)
Definition declares (descriptions : list IPluginDescription) (name : string) : Prop :=
  exists desc events,
    In desc descriptions /\ activationEvents desc = Some events
    /\ In ("workspaceContains:" ++ name)%string events.

(** The folder of the workspace, when there is one. *)
Definition workspaceRoot (this : PluginHostMain) : option string :=
  match workspace (contextService this) with
  | Some w => match resource w with
              | Some r => Some (fsPath r)
              | None => None
              end
  | None => None
  end.

(** The errors of the dispatches of [events] that reject, in order. *)
Definition rejections (service : IPluginService) (events : list string) : list jsError :=
  flat_map (fun ev => match activateByEvent service ev with
                      | Rejected e => [e]
                      | _ => []
                      end) events.

(** The event dispatched for an existing name. *)
Definition workspaceContains (name : string) : string :=
  "workspaceContains:" ++ name.

(** [Object.keys(desiredFilesMap)] for the registered descriptions. *)
Definition desiredFiles (descriptions : list IPluginDescription) : list string :=
  Object_keys (forEach descriptions addDesiredFiles []).

(** The names among the probe results that pass [if (!existingFileName) return]. *)
Definition existingNames (fileNames : list (option string)) : list string :=
  flat_map (fun r => if falsy r then []
                     else match r with Some n => [n] | None => [] end) fileNames.

(** The world after eager activation: the events dispatched, the probes
    issued and the errors logged have been added. *)
Definition afterEager (w : World) (events : list string)
    (probes : list (string * string)) (errors : list jsError) : World :=
  mkWorld (collector w) (registry w) (registrationDone w)
          (activated w ++ events) (probed w ++ probes)
          (consoleError w ++ errors) (exitTimers w).

(** What a probe of [name] under [folder] fulfils with. *)
Definition probeResult (paths_join : string -> string -> string) (exists_ : string -> bool)
    (folder name : string) : option string :=
  if exists_ (paths_join folder name) then Some name else None.

(** The events of the plan, from the registry and the file system: the
    universal event, then, with a workspace folder, the event of every
    desired file that has a name and exists. *)
Definition planned (paths_join : string -> string -> string) (exists_ : string -> bool)
    (this : PluginHostMain) (w : World) : list string :=
  "*" :: match workspaceRoot this with
         | Some folder =>
             map workspaceContains
               (filter (fun n => negb (n =? "") && exists_ (paths_join folder n))
                  (desiredFiles (registry w)))
         | None => []
         end.

(** The probes issued, from the registry: with a workspace folder, one
    for every desired file. *)
Definition probes (paths_join : string -> string -> string)
    (this : PluginHostMain) (w : World) : list (string * string) :=
  match workspaceRoot this with
  | Some folder => map (fun n => (paths_join folder n, n)) (desiredFiles (registry w))
  | None => []
  end.

(** The events and the probes an eager activation adds to a world. *)
Definition newlyActivated (w w' : World) : list string :=
  skipn (List.length (activated w)) (activated w').

Definition newlyProbed (w w' : World) : list (string * string) :=
  skipn (List.length (probed w)) (probed w').

(** A scan that is started only when its path is configured. *)
Definition configuredScan
    (scan : string -> string -> bool -> list IMessage * TPromise (list IPluginDescription))
    (version : string) (path : option string)
    : list IMessage * TPromise (list IPluginDescription) :=
  match path with
  | Some p => if truthy path then scan version p false else ([], Fulfilled [])
  | None => ([], Fulfilled [])
  end.

(** The three scans [scanPlugins] joins: builtin, user-installed,
    development. *)
Definition scansOf (BUILTIN_PLUGINS_PATH : string)
    (PluginScanner_scanPlugins PluginScanner_scanOneOrMultiplePlugins :
       string -> string -> bool -> list IMessage * TPromise (list IPluginDescription))
    (e : Env) : list (list IMessage * TPromise (list IPluginDescription)) :=
  [ PluginScanner_scanPlugins (version e) BUILTIN_PLUGINS_PATH true;
    configuredScan PluginScanner_scanPlugins (version e) (userPluginsHome e);
    configuredScan PluginScanner_scanOneOrMultiplePlugins (version e)
      (pluginDevelopmentPath e) ].

(** A plugin service whose activations all fulfil. *)
Definition quietService : IPluginService :=
  mkPluginService (fun _ => Fulfilled tt).

(** Two worlds that differ at most in what was logged with [console.error]. *)
Definition sameButConsole (w1 w2 : World) : Prop :=
  collector w1 = collector w2 /\ registry w1 = registry w2
  /\ registrationDone w1 = registrationDone w2 /\ activated w1 = activated w2
  /\ probed w1 = probed w2 /\ exitTimers w1 = exitTimers w2.

(** The rest of [readPlugins] once the list of extensions is known:
    registration, the signal that it is done, eager activation, tests. *)
Definition registerAndActivate (paths_join : string -> string -> string)
    (exists_ : string -> bool) (nodeRequire : string -> RequireResult)
    (this : PluginHostMain) (extensions : list IPluginDescription) : M (TPromise unit) :=
  (registerPlugins extensions ;;
   messages <- getMessages ;;
   pluginService_registrationDone messages ;;
   eager <- handleEagerPlugins paths_join exists_ this ;;
   then_ eager (fun _ => handlePluginTests nodeRequire this))%host.

(** The exits a run of the tests arms: one for every call of the
    callback. *)
Definition armedBy (run : TestRun) : list Z :=
  flat_map (fun ev => match ev with
                      | CallsBack _ failures => [exitCodeOf failures]
                      | RunThrows _ => []
                      end) run.

(** What [handlePluginTests] returns and the exit timers it arms. *)
Definition testsOutcome (nodeRequire : string -> RequireResult) (this : PluginHostMain)
    : TPromise unit * list Z :=
  let (p, w) := handlePluginTests nodeRequire this (mkWorld [] [] [] [] [] [] []) in
  (p, exitTimers w).

(** The world after registration of [extensions], before eager activation. *)
Definition registered (w : World) (extensions : list IPluginDescription) : World :=
  mkWorld (collector w) (registry w ++ extensions)
          (registrationDone w ++ [collector w]) (activated w) (probed w)
          (consoleError w) (exitTimers w).

Definition addTimers (w : World) (timers : list Z) : World :=
  mkWorld (collector w) (registry w) (registrationDone w) (activated w) (probed w)
          (consoleError w) (exitTimers w ++ timers).

(** The map of the merge holds, for every id but [__proto__], the latest
    description inserted so far, under distinct keys. *)
Definition Represents (m : JsObject IPluginDescription) (seen : list IPluginDescription)
    : Prop :=
  NoDup (ownKeys m) /\ forall i, getProp m i = lastStored i seen.

(* ================================================================== *)
(** ** Further notions used to describe the code                       *)
(* ================================================================== *)

Definition isInfo (m : IMessage) : bool :=
  match type m with Info => true | _ => false end.

(** The assignments of the three loops alone: [map[p.id] = p] for every
    description, in order. *)
Definition assignAll (l : list IPluginDescription) (m : JsObject IPluginDescription)
    : JsObject IPluginDescription :=
  fold_left (fun m p => setProp m (id p) p) l m.

(** The number of activation events the descriptions declare. *)
Definition eventCount (descriptions : list IPluginDescription) : nat :=
  list_sum (map (fun d => match activationEvents d with
                          | Some events => List.length events
                          | None => 0
                          end) descriptions).

(** All activation events of the descriptions. *)
Definition allEvents (descriptions : list IPluginDescription) : list string :=
  flat_map (fun d => match activationEvents d with
                     | Some events => events
                     | None => []
                     end) descriptions.

(** Both paths [handlePluginTests] asks for are set. *)
Definition testsConfigured (this : PluginHostMain) : bool :=
  truthy (pluginTestsPath (env (contextService this)))
  && truthy (pluginDevelopmentPath (env (contextService this))).

(** The armed timers fire: each calls the exported [exit(code)]. *)
Definition fireExitTimers (m : ProcessExit.Module_) (timers : list Z)
    (p : ProcessExit.Process) : ProcessExit.Process :=
  forEach timers (fun code => ProcessExit.exit m (Some code)) p.

(** The code of the first call of the exported [exit] in a sequence. *)
Fixpoint firstExit (calls : list ProcessExit.Call) : option (option Z) :=
  match calls with
  | [] => None
  | ProcessExit.ExportedExitCall code :: _ => Some code
  | ProcessExit.ProcessExitCall _ :: r => firstExit r
  end.

(** The number of calls of [process.exit] before the first call of the
    exported [exit]. *)
Fixpoint preventedCalls (calls : list ProcessExit.Call) : nat :=
  match calls with
  | [] => 0
  | ProcessExit.ExportedExitCall _ :: _ => 0
  | ProcessExit.ProcessExitCall _ :: r => S (preventedCalls r)
  end.

(* ================================================================== *)
(** ** Concrete hosts                                                  *)
(* ================================================================== *)

Module Example.

(** [paths.join] on a folder and a plain relative name; joining the
    empty name gives the folder. *)
Definition joinPaths (folder name : string) : string :=
  if name =? "" then folder else folder ++ "/" ++ name.

Definition everythingExists (path : string) : bool := true.

(** A workspace that holds [pkg.json] and nothing else. *)
Definition onlyPkgJson (path : string) : bool :=
  (path =? "/ws") || (path =? "/ws/pkg.json").

Definition pluginA : IPluginDescription :=
  mkPlugin "ms.a" "/app/extensions/a"
    (Some ["workspaceContains:pkg.json"; "onLanguage:go"; "workspaceContains:Cargo.toml"]).

Definition pluginB : IPluginDescription :=
  mkPlugin "ms.b" "/app/extensions/b" (Some ["workspaceContains:pkg.json"]).

Definition userA : IPluginDescription :=
  mkPlugin "ms.a" "/home/u/extensions/a" None.

Definition devA : IPluginDescription :=
  mkPlugin "ms.a" "/dev/a" (Some ["*"]).

Definition emptyNamed : IPluginDescription :=
  mkPlugin "ms.e" "/app/extensions/e" (Some ["workspaceContains:"]).

(** The builtin folder scans to [pluginA]; any other folder fails. *)
Definition scanBuiltinOnly (version path : string) (isBuiltin : bool)
    : list IMessage * TPromise (list IPluginDescription) :=
  if path =? "/app/extensions" then ([], Fulfilled [pluginA])
  else ([], Rejected (ErrorValue "EACCES")).

Definition envWithUserHome : Env :=
  mkEnv (Some "/home/u/extensions") None "0.10.0" None.

Definition inWorkspace : PluginHostMain :=
  mkPluginHostMain
    (mkContextService envWithUserHome (Some (mkWorkspace (Some (mkURI "/ws")))))
    quietService.

Definition noWorkspace : PluginHostMain :=
  mkPluginHostMain (mkContextService envWithUserHome None) quietService.

Definition noTestRunner (path : string) : RequireResult := Loaded None.

Definition emptyWorld : World := mkWorld [] [] [] [] [] [] [].

(** A world whose registry holds the given descriptions. *)
Definition withRegistry (descriptions : list IPluginDescription) : World :=
  mkWorld [] descriptions [] [] [] [] [].

End Example.

(** Further concrete hosts. *)
Module Example2.

(** Every folder scans: the builtin one to [pluginA] and [pluginB], the
    user-installed one to [userA], any other to [devA]. *)
Definition scanAll (version path : string) (isBuiltin : bool)
    : list IMessage * TPromise (list IPluginDescription) :=
  if path =? "/app/extensions" then ([], Fulfilled [Example.pluginA; Example.pluginB])
  else if path =? "/home/u/extensions" then ([], Fulfilled [Example.userA])
  else ([], Fulfilled [Example.devA]).

(** The builtin scan never completes; any other scan fails. *)
Definition scanBuiltinPending (version path : string) (isBuiltin : bool)
    : list IMessage * TPromise (list IPluginDescription) :=
  if path =? "/app/extensions" then ([], Pending)
  else ([], Rejected (ErrorValue "EACCES")).

(** The builtin folder scans to [pluginA]; the scan of any other folder
    never completes. *)
Definition scanOthersPending (version path : string) (isBuiltin : bool)
    : list IMessage * TPromise (list IPluginDescription) :=
  if path =? "/app/extensions" then ([], Fulfilled [Example.pluginA])
  else ([], Pending).

Definition envWithTests : Env :=
  mkEnv None (Some "/dev/a") "0.10.0" (Some "/dev/a/test").

(** A host started to run the tests of the extension under development. *)
Definition testing : PluginHostMain :=
  mkPluginHostMain (mkContextService envWithTests None) quietService.

(** A runner that reports an error and no number of failures. *)
Definition failingRunner (path : string) : RequireResult :=
  Loaded (Some [CallsBack (Some "Error: timeout") None]).

(** A runner whose [run] throws at once. *)
Definition throwingRunner (path : string) : RequireResult :=
  Loaded (Some [RunThrows "Error: no tests"]).

End Example2.

(** Descriptions and names that meet the prototype of the maps. *)
Module Exotic.

Definition protoBuiltin : IPluginDescription :=
  mkPlugin "__proto__" "/app/extensions/p" None.

Definition protoUser : IPluginDescription :=
  mkPlugin "__proto__" "/home/u/extensions/p" None.

Definition shadowing : IPluginDescription :=
  mkPlugin "hasOwnProperty" "/app/extensions/h" None.

Definition devQ : IPluginDescription := mkPlugin "ms.q" "/dev/q" None.

Definition devR : IPluginDescription := mkPlugin "ms.r" "/dev/r" None.

(** A description that waits for a file named [__proto__]. *)
Definition protoNamed : IPluginDescription :=
  mkPlugin "ms.p" "/app/extensions/n" (Some ["workspaceContains:__proto__"]).

(** Every folder scans to [shadowing]. *)
Definition scanShadowing (version path : string) (isBuiltin : bool)
    : list IMessage * TPromise (list IPluginDescription) :=
  ([], Fulfilled [shadowing]).

End Exotic.

(* ================================================================== *)
(** ** Objects as maps: lookup, assignment and keys                    *)
(* ================================================================== *)

Lemma flat_map_ext_In {A B : Type} (f g : A -> list B) (l : list A) :
  (forall a, In a l -> f a = g a) -> flat_map f l = flat_map g l.
Proof.
  induction l as [|a r IH]; simpl; intros H; [reflexivity|].
  rewrite (H a (or_introl eq_refl)), IH; auto.
Qed.

Lemma insertIndex_Permutation x l : Permutation (insertIndex x l) (x :: l).
Proof.
  induction l as [|y r IH]; simpl; [reflexivity|].
  destruct (fst x <=? fst y)%N; [reflexivity|].
  rewrite IH. apply perm_swap.
Qed.

Lemma sortIndices_Permutation l : Permutation (sortIndices l) l.
Proof.
  induction l as [|x r IH]; simpl; [reflexivity|].
  rewrite insertIndex_Permutation. now constructor.
Qed.

(** [Object.keys] lists every own key, each once: it only reorders. *)
Lemma keyOrder_Permutation keys : Permutation (keyOrder keys) keys.
Proof.
  unfold keyOrder. rewrite sortIndices_Permutation.
  induction keys as [|k r IH]; simpl; [reflexivity|].
  destruct (arrayIndex k); simpl.
  - now constructor.
  - rewrite <- Permutation_middle. now constructor.
Qed.

Section JsObjectFacts.
Context {V : Type}.
Implicit Types (o : JsObject V) (k : string) (v : V).

Lemma hasOwnProperty_getProp o k :
  hasOwnProperty o k = match getProp o k with Some _ => true | None => false end.
Proof.
  induction o as [|[k' v'] r IH]; simpl; [reflexivity|].
  destruct (k =? k'); [reflexivity | exact IH].
Qed.

Lemma hasOwnProperty_keys o k :
  hasOwnProperty o k = true <-> In k (ownKeys o).
Proof.
  induction o as [|[k' v'] r IH]; simpl.
  - split; [discriminate | tauto].
  - destruct (String.eqb_spec k k') as [->|Hne].
    + split; auto.
    + rewrite IH. split; [auto | intros [H|H]; [congruence | exact H]].
Qed.

Lemma getProp_putOwn_same o k v : getProp (putOwn o k v) k = Some v.
Proof.
  induction o as [|[k' v'] r IH]; simpl.
  - now rewrite String.eqb_refl.
  - destruct (k =? k') eqn:E; simpl; rewrite ?String.eqb_refl, ?E; auto.
Qed.

Lemma getProp_putOwn_other o k k' v :
  k' <> k -> getProp (putOwn o k v) k' = getProp o k'.
Proof.
  intros Hne. induction o as [|[k0 v0] r IH]; simpl.
  - destruct (String.eqb_spec k' k); [contradiction | reflexivity].
  - destruct (String.eqb_spec k k0) as [->|Hk]; simpl.
    + destruct (String.eqb_spec k' k0); [contradiction | reflexivity].
    + destruct (k' =? k0); [reflexivity | exact IH].
Qed.

Lemma ownKeys_putOwn o k v :
  ownKeys (putOwn o k v)
  = if hasOwnProperty o k then ownKeys o else ownKeys o ++ [k].
Proof.
  induction o as [|[k0 v0] r IH]; simpl; [reflexivity|].
  destruct (String.eqb_spec k k0) as [->|Hk]; simpl; [reflexivity|].
  unfold ownKeys in *. simpl. rewrite IH.
  destruct (hasOwnProperty r k); reflexivity.
Qed.

(** Assigning [__proto__] leaves the own properties as they are. *)
Lemma setProp_proto o v : setProp o "__proto__" v = o.
Proof. reflexivity. Qed.

Lemma setProp_putOwn o k v : k <> "__proto__" -> setProp o k v = putOwn o k v.
Proof.
  intros H. unfold setProp. now destruct (String.eqb_spec k "__proto__").
Qed.

Lemma ownKeys_setProp o k v :
  ownKeys (setProp o k v)
  = if (k =? "__proto__") || hasOwnProperty o k then ownKeys o else ownKeys o ++ [k].
Proof.
  unfold setProp. destruct (k =? "__proto__"); [reflexivity|]. apply ownKeys_putOwn.
Qed.

Lemma NoDup_keys_setProp o k v :
  NoDup (ownKeys o) -> NoDup (ownKeys (setProp o k v)).
Proof.
  intros Hnd. rewrite ownKeys_setProp.
  destruct (k =? "__proto__"); [exact Hnd|]. simpl.
  destruct (hasOwnProperty o k) eqn:E; [exact Hnd|].
  apply NoDup_app; [exact Hnd | repeat constructor; simpl; tauto |].
  intros x Hx [<-|[]]. apply hasOwnProperty_keys in Hx. congruence.
Qed.

Lemma In_Object_keys o k : In k (Object_keys o) <-> In k (ownKeys o).
Proof.
  unfold Object_keys. split; apply Permutation_in;
    [|symmetry]; apply keyOrder_Permutation.
Qed.

Lemma NoDup_Object_keys o : NoDup (ownKeys o) -> NoDup (Object_keys o).
Proof.
  unfold Object_keys. apply Permutation_NoDup. symmetry. apply keyOrder_Permutation.
Qed.

(** With distinct keys, the values listed along the own keys are the
    values of the properties, one for each key. *)
Lemma values_along_ownKeys o :
  NoDup (ownKeys o) ->
  flat_map (fun name => match getProp o name with
                        | Some v => [v]
                        | None => []
                        end) (ownKeys o) = map snd o.
Proof.
  unfold ownKeys.
  induction o as [|[k v] r IH]; simpl; intros Hnd; [reflexivity|].
  rewrite String.eqb_refl. simpl. f_equal.
  inversion Hnd as [|? ? Hk Hr]; subst.
  rewrite <- (IH Hr).
  apply flat_map_ext_In. intros a Ha.
  destruct (String.eqb_spec a k) as [->|_]; [contradiction | reflexivity].
Qed.

(** [Object.keys(o).map(name => o[name])] lists the values of the own
    properties, each once. *)
Lemma Object_values_Permutation o :
  NoDup (ownKeys o) -> Permutation (Object_values o) (map snd o).
Proof.
  intros Hnd. rewrite <- (values_along_ownKeys o Hnd).
  unfold Object_values, Object_keys.
  apply Permutation_flat_map, keyOrder_Permutation.
Qed.

Lemma getProp_In o k v :
  getProp o k = Some v -> In (k, v) o.
Proof.
  induction o as [|[k0 v0] r IH]; simpl; [discriminate|].
  destruct (String.eqb_spec k k0) as [->|_].
  - intros [= ->]. now left.
  - intros H. right. auto.
Qed.

Lemma In_getProp o k v :
  NoDup (ownKeys o) -> In (k, v) o -> getProp o k = Some v.
Proof.
  induction o as [|[k0 v0] r IH]; simpl; [tauto|].
  intros Hnd [[= -> ->]|Hin].
  - now rewrite String.eqb_refl.
  - inversion Hnd as [|? ? Hk Hr]; subst.
    destruct (String.eqb_spec k k0) as [->|_]; [|auto].
    exfalso. apply Hk. change k0 with (fst (k0, v)). now apply in_map.
Qed.

End JsObjectFacts.

(* ================================================================== *)
(** ** The merge: the map follows the inputs                           *)
(* ================================================================== *)

Lemma findLast_app i l1 l2 :
  findLast i (l1 ++ l2)
  = match findLast i l2 with Some q => Some q | None => findLast i l1 end.
Proof.
  induction l1 as [|p r IH]; simpl.
  - now destruct (findLast i l2).
  - rewrite IH. now destruct (findLast i l2), (findLast i r).
Qed.

Lemma findLast_snoc i l p :
  findLast i (l ++ [p]) = if i =? id p then Some p else findLast i l.
Proof.
  rewrite findLast_app. simpl. now destruct (i =? id p).
Qed.

Lemma findLast_Some i l p :
  findLast i l = Some p -> id p = i /\ In p l.
Proof.
  induction l as [|q r IH]; simpl; [discriminate|].
  destruct (findLast i r) as [q'|].
  - intros [= ->]. destruct (IH eq_refl). auto.
  - destruct (String.eqb_spec i (id q)) as [->|_]; [|discriminate].
    intros [= ->]. auto.
Qed.

Lemma findLast_None i l :
  findLast i l = None <-> ~ In i (ids l).
Proof.
  induction l as [|q r IH]; simpl; [tauto|].
  destruct (findLast i r) as [q'|].
  - split; [discriminate|]. intros H. exfalso. apply H. right.
    destruct (In_dec string_dec i (ids r)) as [Hin|Hn]; [exact Hin|].
    apply IH in Hn. discriminate.
  - destruct (String.eqb_spec i (id q)) as [->|Hne].
    + split; [discriminate | intros H; exfalso; apply H; now left].
    + split; [|reflexivity]. intros _ [H|H]; [congruence|].
      now apply (proj1 IH eq_refl).
Qed.

Lemma lastStored_Some i l p :
  lastStored i l = Some p -> i <> "__proto__" /\ id p = i /\ In p l.
Proof.
  unfold lastStored. destruct (String.eqb_spec i "__proto__"); [discriminate|].
  intros H. apply findLast_Some in H. tauto.
Qed.

Lemma lastStored_other i l : i <> "__proto__" -> lastStored i l = findLast i l.
Proof.
  intros H. unfold lastStored. now destruct (String.eqb_spec i "__proto__").
Qed.

Lemma shadowed_In l : shadowed l = true <-> In "hasOwnProperty" (ids l).
Proof.
  unfold shadowed, ids. rewrite existsb_exists, in_map_iff. split.
  - intros (p & Hin & E). apply String.eqb_eq in E. eauto.
  - intros (p & E & Hin). exists p. split; [exact Hin | now apply String.eqb_eq].
Qed.

Lemma shadowed_app l1 l2 : shadowed (l1 ++ l2) = shadowed l1 || shadowed l2.
Proof. apply existsb_app. Qed.

Lemma shadowed_lastStored l :
  shadowed l = match lastStored "hasOwnProperty" l with Some _ => true | None => false end.
Proof.
  rewrite lastStored_other by discriminate.
  destruct (findLast "hasOwnProperty" l) as [p|] eqn:E.
  - apply shadowed_In. apply findLast_Some in E as [E Hin].
    rewrite <- E. now apply in_map.
  - apply findLast_None in E. destruct (shadowed l) eqn:S; [|reflexivity].
    apply shadowed_In in S. contradiction.
Qed.

Lemma Represents_nil : Represents [] [].
Proof.
  split; [constructor|]. intros i. unfold lastStored. simpl.
  now destruct (i =? "__proto__").
Qed.

Lemma Represents_setProp m seen p :
  Represents m seen -> Represents (setProp m (id p) p) (seen ++ [p]).
Proof.
  intros [Hnd Hget]. split; [now apply NoDup_keys_setProp|].
  intros i. unfold lastStored. rewrite findLast_snoc.
  destruct (String.eqb_spec (id p) "__proto__") as [Ep|Ep].
  - rewrite Ep, setProp_proto, Hget. unfold lastStored.
    destruct (String.eqb_spec i "__proto__") as [->|Hi]; [reflexivity|].
    now destruct (String.eqb_spec i "__proto__").
  - rewrite (setProp_putOwn _ _ _ Ep).
    destruct (String.eqb_spec i (id p)) as [->|Hne].
    + rewrite getProp_putOwn_same.
      now destruct (String.eqb_spec (id p) "__proto__").
    + rewrite getProp_putOwn_other by exact Hne. apply Hget.
Qed.

(** The guard throws when the map has an own [hasOwnProperty]; otherwise
    it warns exactly when the map holds the id. *)
Lemma warnIfOwn_Represents m seen p c :
  Represents m seen ->
  warnIfOwn m p c
  = if shadowed seen then Threw notAFunction
    else Returned (c ++ overwriteWarning seen p).
Proof.
  intros [_ Hget]. unfold warnIfOwn, callHasOwnProperty, overwriteWarning.
  rewrite !hasOwnProperty_getProp, !Hget, shadowed_lastStored.
  destruct (lastStored "hasOwnProperty" seen); [reflexivity|].
  destruct (lastStored (id p) seen); [reflexivity | now rewrite app_nil_r].
Qed.

Lemma builtin_Failed l e c : forEach l addBuiltin (Failed e c) = Failed e c.
Proof. induction l; simpl; auto. Qed.

Lemma user_Failed l e c : forEach l addUser (Failed e c) = Failed e c.
Proof. induction l; simpl; auto. Qed.

Lemma dev_Failed l e c : forEach l addDev (Failed e c) = Failed e c.
Proof. induction l; simpl; auto. Qed.

Lemma builtin_loop B : forall m seen c,
  Represents m seen ->
  exists m', forEach B addBuiltin (Running m c) = Running m' c
             /\ Represents m' (seen ++ B).
Proof.
  induction B as [|p r IH]; intros m seen c HR; simpl.
  - exists m. rewrite app_nil_r. auto.
  - destruct (IH _ _ c (Represents_setProp _ _ p HR)) as (m' & E & HR').
    exists m'. split; [exact E|]. now rewrite <- app_assoc in HR'.
Qed.

(** The loop over the user-installed descriptions runs through, or it
    stops at the first description that finds the guard shadowed. *)
Lemma user_loop U : forall m seen c,
  Represents m seen ->
  (exists m', forEach U addUser (Running m c)
              = Running m' (c ++ overwriteWarnings seen U)
              /\ Represents m' (seen ++ U))
  \/ (exists U1 u U2,
        U = U1 ++ u :: U2
        /\ shadowed (seen ++ U1) = true
        /\ forEach U addUser (Running m c)
           = Failed notAFunction (c ++ overwriteWarnings seen U1)).
Proof.
  induction U as [|p r IH]; intros m seen c HR; simpl.
  - left. exists m. rewrite !app_nil_r. auto.
  - rewrite (warnIfOwn_Represents _ _ _ _ HR).
    destruct (shadowed seen) eqn:S.
    + right. exists [], p, r. simpl. rewrite !app_nil_r, user_Failed. auto.
    + destruct (IH _ _ (c ++ overwriteWarning seen p) (Represents_setProp _ _ p HR))
        as [(m' & E & HR')|(U1 & u & U2 & -> & S' & E)].
      * left. exists m'. rewrite <- !app_assoc in *. auto.
      * right. exists (p :: U1), u, U2. simpl.
        rewrite <- !app_assoc in *. auto.
Qed.

(** The loop over the development descriptions runs through, or it stops
    at the first description that finds the guard shadowed, after the
    information message of that description. *)
Lemma dev_loop D : forall m seen c,
  Represents m seen ->
  (exists m', forEach D addDev (Running m c)
              = Running m' (c ++ devDiagnostics seen D)
              /\ Represents m' (seen ++ D))
  \/ (exists D1 d D2,
        D = D1 ++ d :: D2
        /\ shadowed (seen ++ D1) = true
        /\ forEach D addDev (Running m c)
           = Failed notAFunction (c ++ devDiagnostics seen D1 ++ [loadingInfo d])).
Proof.
  induction D as [|p r IH]; intros m seen c HR; simpl.
  - left. exists m. rewrite !app_nil_r. auto.
  - rewrite (warnIfOwn_Represents _ _ _ _ HR).
    destruct (shadowed seen) eqn:S.
    + right. exists [], p, r. simpl. rewrite !app_nil_r, dev_Failed. auto.
    + unfold collector_info.
      destruct (IH _ _ ((c ++ [mkMessage Info (Text (loadingMessage p)) ""])
                          ++ overwriteWarning seen p) (Represents_setProp _ _ p HR))
        as [(m' & E & HR')|(D1 & d & D2 & -> & S' & E)].
      * left. exists m'. rewrite <- !app_assoc in *. auto.
      * right. exists (p :: D1), d, D2. simpl.
        rewrite <- !app_assoc in *. auto.
Qed.

(** The three loops run through, or stop in the second, or in the
    third. *)
Lemma mergeLoops_cases B U D c :
  (exists m,
     mergeLoops B U D c
     = Running m (c ++ overwriteWarnings B U ++ devDiagnostics (B ++ U) D)
     /\ Represents m (B ++ U ++ D))
  \/ (exists U1 u U2,
        U = U1 ++ u :: U2
        /\ shadowed (B ++ U1) = true
        /\ mergeLoops B U D c = Failed notAFunction (c ++ overwriteWarnings B U1))
  \/ (exists D1 d D2,
        D = D1 ++ d :: D2
        /\ shadowed (B ++ U ++ D1) = true
        /\ mergeLoops B U D c
           = Failed notAFunction
               (c ++ overwriteWarnings B U ++ devDiagnostics (B ++ U) D1
                  ++ [loadingInfo d])).
Proof.
  unfold mergeLoops.
  destruct (builtin_loop B [] [] c Represents_nil) as (m1 & -> & R1). simpl in R1.
  destruct (user_loop U m1 B c R1) as [(m2 & -> & R2)|(U1 & u & U2 & -> & S & ->)].
  - destruct (dev_loop D m2 (B ++ U) (c ++ overwriteWarnings B U) R2)
      as [(m3 & -> & R3)|(D1 & d & D2 & -> & S & ->)].
    + left. exists m3. rewrite <- !app_assoc in *. auto.
    + right. right. exists D1, d, D2. rewrite <- !app_assoc in *. auto.
  - right. left. exists U1, u, U2. rewrite dev_Failed. auto.
Qed.

Lemma shadowed_incl l1 l2 :
  incl l1 l2 -> shadowed l1 = true -> shadowed l2 = true.
Proof.
  unfold shadowed. rewrite !existsb_exists.
  intros H (p & Hin & E). exists p. auto.
Qed.

(** Without an id [hasOwnProperty] the loops run through. *)
Lemma mergeLoops_ok B U D c :
  shadowed (B ++ U ++ D) = false ->
  exists m,
    mergeLoops B U D c
    = Running m (c ++ overwriteWarnings B U ++ devDiagnostics (B ++ U) D)
    /\ Represents m (B ++ U ++ D).
Proof.
  intros S.
  destruct (mergeLoops_cases B U D c)
    as [H|[(U1 & u & U2 & -> & S' & _)|(D1 & d & D2 & -> & S' & _)]];
    [exact H| |]; exfalso.
  - apply (shadowed_incl _ (B ++ (U1 ++ u :: U2) ++ D)) in S'; [congruence|].
    intros x. rewrite !in_app_iff. simpl. tauto.
  - apply (shadowed_incl _ (B ++ U ++ D1 ++ d :: D2)) in S'; [congruence|].
    intros x. rewrite !in_app_iff. simpl. tauto.
Qed.

Lemma Represents_entry m seen k v :
  Represents m seen -> In (k, v) m -> id v = k.
Proof.
  intros [Hnd Hget] Hin. apply In_getProp in Hin; [|exact Hnd].
  rewrite Hget in Hin. now apply lastStored_Some in Hin.
Qed.

(** A description is among the values of the map exactly when the map
    holds it for its id. *)
Lemma Represents_values m seen p :
  Represents m seen ->
  In p (Object_values m) <-> lastStored (id p) seen = Some p.
Proof.
  intros HR. pose proof HR as [Hnd Hget].
  pose proof (Object_values_Permutation m Hnd) as HP.
  assert (Hiff : In p (Object_values m) <-> In p (map snd m))
    by (split; apply Permutation_in; [|symmetry]; exact HP).
  rewrite Hiff. split.
  - intros Hin. apply in_map_iff in Hin as ([k v] & <- & Hin). simpl.
    rewrite (Represents_entry _ _ _ _ HR Hin), <- Hget.
    now apply In_getProp.
  - intros H. rewrite <- Hget in H. apply getProp_In in H.
    apply in_map_iff. now exists (id p, p).
Qed.

(* ================================================================== *)
(** ** Activation events: the prefix and the desired files             *)
(* ================================================================== *)

Lemma substring_all s : substring 0 (String.length s) s = s.
Proof. induction s as [|a s IH]; simpl; [reflexivity | now rewrite IH]. Qed.

Lemma substr_app p s : substr (p ++ s) (String.length p) = s.
Proof.
  unfold substr. induction p as [|a p IH]; simpl.
  - rewrite Nat.sub_0_r. apply substring_all.
  - exact IH.
Qed.

Lemma prefix_app p s : prefix p (p ++ s) = true.
Proof.
  induction p as [|a p IH]; simpl; [now destruct s|].
  destruct (ascii_dec a a); [exact IH | congruence].
Qed.

Lemma prefix_split p : forall s,
  prefix p s = true -> s = (p ++ substr s (String.length p))%string.
Proof.
  unfold substr. induction p as [|a p IH]; intros s H; simpl.
  - rewrite Nat.sub_0_r. now rewrite substring_all.
  - destruct s as [|b s]; simpl in H; [discriminate|].
    destruct (ascii_dec a b) as [->|]; [|discriminate].
    simpl. f_equal. now apply IH.
Qed.

Lemma append_inj_l p s t : (p ++ s)%string = (p ++ t)%string -> s = t.
Proof. induction p as [|a p IH]; simpl; [auto | intros [= H]; auto]. Qed.

(** An event has the prefix exactly when it is [workspaceContains:<name>],
    and then [<name>] is what [substr] extracts. *)
Lemma addDesiredFile_spec ev m :
  addDesiredFile ev m = m /\ (forall n, ev <> workspaceContains n)
  \/ exists n, ev = workspaceContains n /\ addDesiredFile ev m = setProp m n true.
Proof.
  unfold addDesiredFile.
  destruct (prefix "workspaceContains:" ev) eqn:E.
  - right. exists (substr ev (String.length "workspaceContains:")).
    split; [|reflexivity]. now apply prefix_split in E.
  - left. split; [reflexivity|]. intros n ->.
    unfold workspaceContains in E. now rewrite prefix_app in E.
Qed.

Lemma In_ownKeys_setProp {V} (m : JsObject V) k v n :
  In n (ownKeys (setProp m k v))
  <-> In n (ownKeys m) \/ (n = k /\ k <> "__proto__").
Proof.
  rewrite ownKeys_setProp.
  destruct (String.eqb_spec k "__proto__") as [->|Hk]; simpl.
  - split; [auto | intros [H|[_ H]]; [exact H | contradiction]].
  - destruct (hasOwnProperty m k) eqn:Eo.
    + apply hasOwnProperty_keys in Eo.
      split; [auto | intros [H|[-> _]]; assumption].
    + rewrite in_app_iff. simpl. split.
      * intros [H|[<-|[]]]; auto.
      * intros [H|[-> _]]; auto.
Qed.

Lemma desired_events evs : forall (m : JsObject bool),
  NoDup (ownKeys m) ->
  NoDup (ownKeys (forEach evs addDesiredFile m))
  /\ forall n, In n (ownKeys (forEach evs addDesiredFile m))
               <-> In n (ownKeys m)
                   \/ (In (workspaceContains n) evs /\ n <> "__proto__").
Proof.
  induction evs as [|ev r IH]; intros m Hnd; simpl.
  - split; [exact Hnd | tauto].
  - destruct (addDesiredFile_spec ev m) as [[-> Hno]|(n0 & -> & ->)].
    + destruct (IH m Hnd) as [H1 H2]. split; [exact H1|].
      intros n. rewrite H2. split; [tauto|].
      intros [H|[[H|H] Hp]]; auto. exfalso. now apply (Hno n).
    + destruct (IH (setProp m n0 true) (NoDup_keys_setProp _ _ _ Hnd)) as [H1 H2].
      split; [exact H1|]. intros n. rewrite H2, In_ownKeys_setProp. split.
      * intros [[H|[-> Hp]]|[H Hp]]; auto.
      * intros [H|[[H|H] Hp]]; auto.
        apply append_inj_l in H. subst. auto.
Qed.

Lemma desired_descriptions descs : forall (m : JsObject bool),
  NoDup (ownKeys m) ->
  NoDup (ownKeys (forEach descs addDesiredFiles m))
  /\ forall n, In n (ownKeys (forEach descs addDesiredFiles m))
               <-> In n (ownKeys m) \/ (declares descs n /\ n <> "__proto__").
Proof.
  induction descs as [|d r IH]; intros m Hnd; simpl.
  - split; [exact Hnd|]. intros n. split; [auto|].
    intros [H|[(? & ? & [] & _) _]]. exact H.
  - unfold addDesiredFiles at 2 4.
    destruct (activationEvents d) as [evs|] eqn:Ed.
    + destruct (desired_events evs m Hnd) as [N1 K1].
      destruct (IH _ N1) as [N2 K2]. split; [exact N2|].
      intros n. rewrite K2, K1. unfold declares. split.
      * intros [[H|[H Hp]]|[(d' & evs' & Hin & He & Hev) Hp]]; auto.
        -- right. split; [|exact Hp]. exists d, evs. simpl. auto.
        -- right. split; [|exact Hp]. exists d', evs'. simpl. auto.
      * intros [H|[(d' & evs' & [<-|Hin] & He & Hev) Hp]]; auto.
        -- rewrite Ed in He. injection He as <-. auto.
        -- right. split; [|exact Hp]. exists d', evs'. auto.
    + destruct (IH _ Hnd) as [N2 K2]. split; [exact N2|].
      intros n. rewrite K2. unfold declares. split.
      * intros [H|[(d' & evs' & Hin & He & Hev) Hp]]; auto.
        right. split; [|exact Hp]. exists d', evs'. simpl. auto.
      * intros [H|[(d' & evs' & [<-|Hin] & He & Hev) Hp]]; auto.
        -- congruence.
        -- right. split; [|exact Hp]. exists d', evs'. auto.
Qed.

(** The desired files are the declared names other than [__proto__],
    each once. *)
Lemma desiredFiles_spec descs :
  NoDup (desiredFiles descs)
  /\ forall n, In n (desiredFiles descs)
               <-> declares descs n /\ n <> "__proto__".
Proof.
  destruct (desired_descriptions descs [] (NoDup_nil _)) as [N K].
  unfold desiredFiles. split; [now apply NoDup_Object_keys|].
  intros n. rewrite In_Object_keys, K. simpl. tauto.
Qed.

(* ================================================================== *)
(** ** Eager activation, step by step                                  *)
(* ================================================================== *)

Lemma afterEager_nil w : afterEager w [] [] [] = w.
Proof. destruct w. unfold afterEager. simpl. now rewrite !app_nil_r. Qed.

Lemma afterEager_afterEager w e1 p1 r1 e2 p2 r2 :
  afterEager (afterEager w e1 p1 r1) e2 p2 r2
  = afterEager w (e1 ++ e2) (p1 ++ p2) (r1 ++ r2).
Proof. unfold afterEager. simpl. now rewrite !app_assoc. Qed.

Lemma joinErrors_Fulfilled {A B} (f : A -> B) (l : list A) : forall i,
  joinErrors i (map (fun a => Fulfilled (f a)) l) = [].
Proof. induction l; simpl; auto. Qed.

Lemma joinValues_Fulfilled {A B} (f : A -> B) (l : list A) :
  joinValues (map (fun a => Fulfilled (f a)) l) = map f l.
Proof. induction l as [|a r IH]; simpl; [reflexivity | now rewrite IH]. Qed.

Lemma join_Fulfilled {A B} (f : A -> B) (l : list A) :
  join (map (fun a => Fulfilled (f a)) l) = Fulfilled (map f l).
Proof.
  unfold join.
  assert (H1 : existsb isPending (map (fun a => Fulfilled (f a)) l) = false)
    by (induction l; simpl; auto).
  now rewrite H1, joinErrors_Fulfilled, joinValues_Fulfilled.
Qed.

Section HostFacts.
Variable paths_join : string -> string -> string.
Variable exists_ : string -> bool.
Variable this : PluginHostMain.

Lemma activateAndLog_run ev w :
  activateAndLog this ev w
  = (tt, afterEager w [ev] [] (rejections (pluginService this) [ev])).
Proof.
  unfold activateAndLog, bind, recordActivation, rejections. simpl.
  destruct (activateByEvent (pluginService this) ev); unfold afterEager; simpl;
    now rewrite !app_nil_r.
Qed.

Lemma probes_run folder names : forall w,
  mapM (fun fileName =>
          fileExistsWithResult exists_ (paths_join folder fileName) fileName) names w
  = (map (fun n => Fulfilled (probeResult paths_join exists_ folder n)) names,
     afterEager w [] (map (fun n => (paths_join folder n, n)) names) []).
Proof.
  induction names as [|n r IH]; intros w; simpl.
  - now rewrite afterEager_nil.
  - unfold bind at 1. unfold fileExistsWithResult at 1. unfold bind at 1. simpl.
    unfold bind at 1. rewrite IH. simpl. f_equal.
    unfold afterEager. simpl. now rewrite !app_nil_r, <- !app_assoc.
Qed.

Lemma rejections_app svc l1 l2 :
  rejections svc (l1 ++ l2) = rejections svc l1 ++ rejections svc l2.
Proof. apply flat_map_app. Qed.

Lemma dispatch_run results : forall w,
  forEachM results (activateExisting this) w
  = (tt, afterEager w (map workspaceContains (existingNames results)) []
           (rejections (pluginService this)
              (map workspaceContains (existingNames results)))).
Proof.
  induction results as [|r rs IH]; intros w; simpl.
  - now rewrite afterEager_nil.
  - unfold bind. unfold activateExisting at 1.
    destruct (falsy r) eqn:Ef.
    + simpl. apply IH.
    + destruct r as [n|]; [|discriminate Ef].
      rewrite activateAndLog_run, IH, afterEager_afterEager.
      rewrite map_app, rejections_app. reflexivity.
Qed.

(** The names whose event is dispatched: not empty, and existing. *)
Lemma existingNames_probes folder names :
  existingNames (map (probeResult paths_join exists_ folder) names)
  = filter (fun n => negb (n =? "") && exists_ (paths_join folder n)) names.
Proof.
  induction names as [|n r IH]; simpl; [reflexivity|].
  rewrite IH. unfold probeResult, falsy, truthy.
  destruct (exists_ (paths_join folder n)); simpl.
  - rewrite negb_involutive, andb_true_r. now destruct (n =? "").
  - now rewrite andb_false_r.
Qed.

(** [handleWorkspaceContainsEagerPlugins] with a workspace folder. *)
Lemma workspaceContains_run folder w :
  workspaceRoot this = Some folder ->
  let names := desiredFiles (registry w) in
  let events :=
    map workspaceContains
      (filter (fun n => negb (n =? "") && exists_ (paths_join folder n)) names) in
  handleWorkspaceContainsEagerPlugins paths_join exists_ this w
  = (Fulfilled tt,
     afterEager w events (map (fun n => (paths_join folder n, n)) names)
       (rejections (pluginService this) events)).
Proof.
  unfold workspaceRoot, handleWorkspaceContainsEagerPlugins.
  destruct (workspace (contextService this)) as [ws|]; [|discriminate].
  destruct (resource ws) as [r|]; [|discriminate].
  intros [= <-]. simpl.
  unfold bind at 1. unfold getAllPluginDescriptions at 1.
  unfold bind at 1. fold (desiredFiles (registry w)).
  rewrite probes_run.
  rewrite <- (map_map (probeResult paths_join exists_ (fsPath r)) Fulfilled), join_Fulfilled.
  rewrite map_id. simpl. unfold bind at 1.
  rewrite dispatch_run, afterEager_afterEager, existingNames_probes. simpl.
  unfold ret. now rewrite app_nil_r.
Qed.

(** [handleWorkspaceContainsEagerPlugins] without a workspace folder. *)
Lemma workspaceContains_none w :
  workspaceRoot this = None ->
  handleWorkspaceContainsEagerPlugins paths_join exists_ this w = (Fulfilled tt, w).
Proof.
  unfold workspaceRoot, handleWorkspaceContainsEagerPlugins.
  destruct (workspace (contextService this)) as [ws|]; [|reflexivity].
  destruct (resource ws) as [r|]; [discriminate | reflexivity].
Qed.

(** [handleEagerPlugins] dispatches the plan, issues the probes, logs
    the rejections and fulfils. *)
Lemma handleEagerPlugins_run w :
  handleEagerPlugins paths_join exists_ this w
  = (Fulfilled tt,
     afterEager w (planned paths_join exists_ this w) (probes paths_join this w) (rejections (pluginService this) (planned paths_join exists_ this w))).
Proof.
  unfold handleEagerPlugins, bind. rewrite activateAndLog_run.
  unfold planned, probes.
  destruct (workspaceRoot this) as [folder|] eqn:E.
  - rewrite (workspaceContains_run folder _ E), afterEager_afterEager.
    rewrite <- rejections_app. reflexivity.
  - rewrite (workspaceContains_none _ E). reflexivity.
Qed.

End HostFacts.

Lemma skipn_length_app {A} (l r : list A) : skipn (List.length l) (l ++ r) = r.
Proof. induction l; simpl; auto. Qed.

Lemma workspaceContains_inj n1 n2 :
  workspaceContains n1 = workspaceContains n2 -> n1 = n2.
Proof. apply append_inj_l. Qed.

Lemma count_occ_NoDup (l : list string) (x : string) :
  NoDup l -> count_occ string_dec l x = if in_dec string_dec x l then 1 else 0.
Proof.
  intros Hnd. destruct (in_dec string_dec x l) as [Hin|Hn].
  - apply NoDup_count_occ'; assumption.
  - now apply count_occ_not_In.
Qed.


(* ================================================================== *)
(** ** Eager activation: probes and dispatches                         *)
(* ================================================================== *)

(** C6, amended.  With a workspace folder, for a declared name that is
    not empty (and is not [__proto__]), the event
    [workspaceContains:<name>] is among the events dispatched exactly
    when the path joined from the folder and the name exists; it is then
    dispatched once, and it is not dispatched when the path does not
    exist. *)
Theorem dispatch_iff_exists paths_join exists_ this folder w n :
  workspaceRoot this = Some folder ->
  declares (registry w) n ->
  n <> "" ->
  n <> "__proto__" ->
  let w' := snd (handleWorkspaceContainsEagerPlugins paths_join exists_ this w) in
  In (paths_join folder n, n) (newlyProbed w w')
  /\ (In (workspaceContains n) (newlyActivated w w')
      <-> exists_ (paths_join folder n) = true)
  /\ count_occ string_dec (newlyActivated w w') (workspaceContains n)
     = if exists_ (paths_join folder n) then 1 else 0.
Proof.
  intros Hroot Hdecl Hne Hproto. simpl.
  rewrite (workspaceContains_run _ _ _ folder w Hroot). simpl.
  unfold newlyActivated, newlyProbed. simpl. rewrite !skipn_length_app.
  destruct (desiredFiles_spec (registry w)) as [Hnd Hin].
  assert (Hdes : In n (desiredFiles (registry w))) by (apply Hin; auto).
  set (keep := fun n0 => negb (n0 =? "") && exists_ (paths_join folder n0)).
  assert (Hkeep : keep n = exists_ (paths_join folder n)).
  { unfold keep. destruct (String.eqb_spec n ""); [contradiction | reflexivity]. }
  assert (Hmem : In (workspaceContains n)
                   (map workspaceContains (filter keep (desiredFiles (registry w))))
                 <-> exists_ (paths_join folder n) = true).
  { rewrite in_map_iff. split.
    - intros (n0 & E & H0). apply workspaceContains_inj in E. subst n0.
      apply filter_In in H0 as [_ H0]. now rewrite <- Hkeep.
    - intros H. exists n. split; [reflexivity|]. apply filter_In.
      split; [exact Hdes | now rewrite Hkeep]. }
  split; [|split].
  - apply in_map_iff. exists n. auto.
  - exact Hmem.
  - rewrite <- (count_occ_map workspaceContains string_dec string_dec
                  workspaceContains_inj).
    rewrite count_occ_NoDup by now apply NoDup_filter.
    destruct (in_dec string_dec n (filter keep (desiredFiles (registry w)))) as [H|H];
      rewrite filter_In, Hkeep in H.
    + destruct H as [_ ->]. reflexivity.
    + destruct (exists_ (paths_join folder n)); [exfalso; auto | reflexivity].
Qed.

(** C7, amended.  With a workspace folder, a declared empty name is
    probed, at the path joined from the folder and the empty name, and
    the event [workspaceContains:] is not dispatched, whether that path
    exists or not. *)
Theorem empty_name_probed_not_dispatched paths_join exists_ this folder w :
  workspaceRoot this = Some folder ->
  declares (registry w) "" ->
  let w' := snd (handleWorkspaceContainsEagerPlugins paths_join exists_ this w) in
  In (paths_join folder "", "") (newlyProbed w w')
  /\ ~ In (workspaceContains "") (newlyActivated w w').
Proof.
  intros Hroot Hdecl. simpl.
  rewrite (workspaceContains_run _ _ _ folder w Hroot). simpl.
  unfold newlyActivated, newlyProbed. simpl. rewrite !skipn_length_app.
  destruct (desiredFiles_spec (registry w)) as [_ Hin].
  assert (Hdes : In "" (desiredFiles (registry w)))
    by (apply Hin; split; [exact Hdecl | discriminate]).
  split.
  - apply in_map_iff. exists "". auto.
  - rewrite in_map_iff. intros (n0 & E & H0).
    apply workspaceContains_inj in E. subst n0.
    apply filter_In in H0 as [_ H0]. discriminate H0.
Qed.

(** C8.  Without a workspace, or with a workspace that has no resource,
    eager activation dispatches the universal event and nothing else,
    probes nothing, and fulfils. *)
Theorem no_workspace_only_universal paths_join exists_ this w :
  workspace (contextService this) = None
  \/ (exists ws, workspace (contextService this) = Some ws /\ resource ws = None) ->
  let r := handleEagerPlugins paths_join exists_ this w in
  fst r = Fulfilled tt
  /\ activated (snd r) = activated w ++ ["*"]
  /\ probed (snd r) = probed w.
Proof.
  intros H.
  assert (Hroot : workspaceRoot this = None).
  { unfold workspaceRoot. destruct H as [->|(ws & -> & ->)]; reflexivity. }
  simpl. rewrite handleEagerPlugins_run. unfold planned, probes.
  rewrite Hroot. simpl. now rewrite app_nil_r.
Qed.
(* ================================================================== *)
(** ** The start-up sequence                                           *)
(* ================================================================== *)

Section StartFacts.
Variable BUILTIN_PLUGINS_PATH : string.
Variables PluginScanner_scanPlugins PluginScanner_scanOneOrMultiplePlugins :
  string -> string -> bool -> list IMessage * TPromise (list IPluginDescription).
Variable paths_join : string -> string -> string.
Variable exists_ : string -> bool.
Variable nodeRequire : string -> RequireResult.

Lemma addTimers_nil w : addTimers w [] = w.
Proof. destruct w. unfold addTimers. simpl. now rewrite app_nil_r. Qed.

Lemma runEvents_run run : forall w,
  forEachM run runEvent w = (tt, addTimers w (armedBy run)).
Proof.
  induction run as [|ev r IH]; intros w; simpl.
  - now rewrite addTimers_nil.
  - unfold bind. destruct ev as [error failures|e]; simpl.
    + rewrite IH. unfold addTimers. simpl. now rewrite <- app_assoc.
    + apply IH.
Qed.

Lemma handlePluginTests_run this w :
  handlePluginTests nodeRequire this w
  = (fst (testsOutcome nodeRequire this),
     addTimers w (snd (testsOutcome nodeRequire this))).
Proof.
  pose proof (addTimers_nil w) as Hw.
  unfold testsOutcome, handlePluginTests.
  destruct (negb (truthy (pluginTestsPath (env (contextService this))))
            || negb (truthy (pluginDevelopmentPath (env (contextService this)))));
    [simpl; now rewrite Hw|].
  destruct (pluginTestsPath (env (contextService this))) as [path|];
    [|simpl; now rewrite Hw].
  destruct (nodeRequire path) as [e|[run|]]; simpl; try reflexivity.
  unfold bind. rewrite !runEvents_run. reflexivity.
Qed.

Lemma registerAndActivate_run this extensions w :
  registerAndActivate paths_join exists_ nodeRequire this extensions w
  = (fst (testsOutcome nodeRequire this),
     addTimers
       (afterEager (registered w extensions)
          (planned paths_join exists_ this (registered w extensions))
          (probes paths_join this (registered w extensions))
          (rejections (pluginService this)
             (planned paths_join exists_ this (registered w extensions))))
       (snd (testsOutcome nodeRequire this))).
Proof.
  unfold registerAndActivate, bind. simpl.
  rewrite handleEagerPlugins_run. simpl.
  rewrite handlePluginTests_run. reflexivity.
Qed.

Lemma scanPlugins_run e w :
  scanPlugins PluginScanner_scanPlugins PluginScanner_scanOneOrMultiplePlugins
    BUILTIN_PLUGINS_PATH (userPluginsHome e) (pluginDevelopmentPath e) (version e) w
  = let scans := scansOf BUILTIN_PLUGINS_PATH PluginScanner_scanPlugins
                   PluginScanner_scanOneOrMultiplePlugins e in
    then_ (join (map snd scans)) mergeCallback
      (setCollector (collector w ++ List.concat (map fst scans)) w).
Proof.
  unfold scanPlugins, scansOf, configuredScan, startScan, bind, pushMessages, ret.
  simpl.
  destruct (userPluginsHome e) as [u|], (pluginDevelopmentPath e) as [d|]; simpl;
    repeat match goal with |- context [if ?b then _ else _] => destruct b end;
    simpl; unfold setCollector; simpl; rewrite ?app_nil_r, <- ?app_assoc;
    try reflexivity; destruct w; reflexivity.
Qed.

(** [readPlugins] by the state the joined scans settle in. *)
Lemma readPlugins_run this w :
  let scans := scansOf BUILTIN_PLUGINS_PATH PluginScanner_scanPlugins
                 PluginScanner_scanOneOrMultiplePlugins (env (contextService this)) in
  let w1 := setCollector (List.concat (map fst scans)) w in
  readPlugins BUILTIN_PLUGINS_PATH PluginScanner_scanPlugins
    PluginScanner_scanOneOrMultiplePlugins paths_join exists_ nodeRequire this w
  = match join (map snd scans) with
    | Pending => (Pending, w1)
    | Rejected err =>
        registerAndActivate paths_join exists_ nodeRequire this []
          (setCollector (collector_error (collector w1) "" err) w1)
    | Fulfilled results =>
        let (merged, c) :=
          mergePlugins (nth 0 results []) (nth 1 results []) (nth 2 results [])
            (collector w1) in
        match merged with
        | Returned extensions =>
            registerAndActivate paths_join exists_ nodeRequire this extensions
              (setCollector c w1)
        | Threw err =>
            registerAndActivate paths_join exists_ nodeRequire this []
              (setCollector (collector_error c "" err) w1)
        end
    end.
Proof.
  simpl. unfold readPlugins. unfold bind at 1. unfold newCollector at 1.
  unfold bind at 1. rewrite scanPlugins_run. simpl.
  destruct (join _) as [results|err|]; simpl.
  - unfold mergeCallback. simpl.
    destruct (mergePlugins _ _ _ _) as [[extensions|err] c]; simpl;
      unfold bind at 1; simpl; reflexivity.
  - unfold bind at 1. simpl. reflexivity.
  - reflexivity.
Qed.

End StartFacts.

Lemma joinErrors_Rejected {A} (ps : list (TPromise A)) : forall i,
  existsb isRejected ps = true -> joinErrors i ps <> [].
Proof.
  induction ps as [|p r IH]; intros i H; simpl in *; [discriminate|].
  destruct p; simpl in H; [now apply IH | discriminate | now apply IH].
Qed.

(** With no pending input, [join] rejects as soon as one input rejects. *)
Lemma join_Rejected {A} (ps : list (TPromise A)) :
  existsb isPending ps = false -> existsb isRejected ps = true ->
  exists errors, errors <> [] /\ join ps = Rejected (JoinErrors errors).
Proof.
  intros Hp Hr. unfold join. rewrite Hp.
  pose proof (joinErrors_Rejected ps 0 Hr) as Hne.
  destruct (joinErrors 0 ps) as [|e es]; [contradiction|].
  exists (e :: es). split; [discriminate | reflexivity].
Qed.

(** C1, amended.  If one of the three scans rejects (and none stays
    pending), the joined scan rejects and the merge does not run: the
    collector holds the messages of the scanners and one error
    diagnostic, an empty list is registered in place of the whole result,
    so the registry gains no description, and start-up goes on: the
    registration is signalled done with the collected messages and the
    eager activation dispatches its plan. *)
Theorem scan_rejection_registers_nothing
    BUILTIN_PLUGINS_PATH PluginScanner_scanPlugins PluginScanner_scanOneOrMultiplePlugins
    paths_join exists_ nodeRequire this w :
  let scans := scansOf BUILTIN_PLUGINS_PATH PluginScanner_scanPlugins
                 PluginScanner_scanOneOrMultiplePlugins (env (contextService this)) in
  existsb isPending (map snd scans) = false ->
  existsb isRejected (map snd scans) = true ->
  let w' := snd (start BUILTIN_PLUGINS_PATH PluginScanner_scanPlugins
                   PluginScanner_scanOneOrMultiplePlugins paths_join exists_
                   nodeRequire this w) in
  registry w' = registry w
  /\ (exists err,
        collector w'
        = List.concat (map fst scans) ++ [mkMessage Error (ErrorObject err) ""])
  /\ registrationDone w' = registrationDone w ++ [collector w']
  /\ activated w' = activated w ++ planned paths_join exists_ this w.
Proof.
  intros scans Hp Hr. simpl. unfold start. rewrite readPlugins_run. fold scans.
  destruct (join_Rejected _ Hp Hr) as (errors & Hne & ->).
  rewrite registerAndActivate_run. simpl.
  split; [now rewrite app_nil_r|].
  split; [exists (JoinErrors errors); reflexivity|].
  split; [reflexivity|].
  unfold planned. simpl. now rewrite app_nil_r.
Qed.

(** C9.  Whatever the activations do, eager activation fulfils and
    dispatches its whole plan: the universal event and, with a workspace
    folder, the event of every declared name (not empty, not [__proto__])
    whose path exists; the plan does not depend on the plugin service.
    The error of every dispatch that rejects is logged with
    [console.error], in the order of the dispatches.  So eager activation
    dispatches what it dispatches when every activation fulfils, and the
    start-up sequence settles in the same state, and leaves the same
    world up to what was logged with [console.error], as when every
    activation fulfils. *)
Theorem activation_failures_isolated
    BUILTIN_PLUGINS_PATH PluginScanner_scanPlugins PluginScanner_scanOneOrMultiplePlugins
    paths_join exists_ nodeRequire ctx svc w :
  let this := mkPluginHostMain ctx svc in
  let quiet := mkPluginHostMain ctx quietService in
  let r := handleEagerPlugins paths_join exists_ this w in
  let s := start BUILTIN_PLUGINS_PATH PluginScanner_scanPlugins
             PluginScanner_scanOneOrMultiplePlugins paths_join exists_ nodeRequire in
  let plan := planned paths_join exists_ quiet w in
  fst r = Fulfilled tt
  /\ activated (snd r) = activated w ++ plan
  /\ (exists others,
        plan = "*" :: others
        /\ forall folder n,
             workspaceRoot this = Some folder ->
             declares (registry w) n -> n <> "" -> n <> "__proto__" ->
             exists_ (paths_join folder n) = true ->
             In (workspaceContains n) others)
  /\ consoleError (snd r) = consoleError w ++ rejections svc plan
  /\ (forall ev e, In ev plan -> activateByEvent svc ev = Rejected e ->
                   In e (consoleError (snd r)))
  /\ activated (snd r) = activated (snd (handleEagerPlugins paths_join exists_ quiet w))
  /\ consoleError (snd r) = consoleError w ++ rejections svc (newlyActivated w (snd r))
  /\ fst (s this w) = fst (s quiet w)
  /\ sameButConsole (snd (s this w)) (snd (s quiet w)).
Proof.
  cbv zeta. rewrite !handleEagerPlugins_run.
  change (planned paths_join exists_ (mkPluginHostMain ctx svc) w)
    with (planned paths_join exists_ (mkPluginHostMain ctx quietService) w).
  set (plan := planned paths_join exists_ (mkPluginHostMain ctx quietService) w).
  unfold newlyActivated. cbn [fst snd afterEager activated consoleError pluginService].
  rewrite skipn_length_app.
  split; [reflexivity|]. split; [reflexivity|]. split.
  { unfold plan, planned. eexists. split; [reflexivity|].
    intros folder n Hroot Hdecl Hne Hproto Hex.
    change (workspaceRoot (mkPluginHostMain ctx quietService))
      with (workspaceRoot (mkPluginHostMain ctx svc)).
    rewrite Hroot. apply in_map, filter_In. split.
    - apply desiredFiles_spec. auto.
    - rewrite Hex. now destruct (String.eqb_spec n ""). }
  split; [reflexivity|]. split.
  { intros ev e Hin He. apply in_or_app. right.
    unfold rejections. apply in_flat_map. exists ev. split; [exact Hin|].
    rewrite He. now left. }
  split; [reflexivity|]. split; [reflexivity|].
  unfold start. rewrite !readPlugins_run. cbv zeta.
  cbn [contextService env].
  destruct (join _) as [results|err|]; cbn [fst snd].
  - destruct (mergePlugins _ _ _ _) as [[merged|err] c];
      rewrite !registerAndActivate_run; cbn [fst snd];
      (split; [reflexivity|]); repeat split.
  - rewrite !registerAndActivate_run. cbn [fst snd].
    split; [reflexivity|]. repeat split.
  - split; [reflexivity|]. repeat split.
Qed.

(* ================================================================== *)
(** ** The patched [process.exit]: nothing but [exit] terminates       *)
(* ================================================================== *)

Lemma run_prevented m calls : forall p,
  ProcessExit.nativeExit m = ProcessExit.NativeExit ->
  ProcessExit.process_exit p = ProcessExit.PreventedExit ->
  (ProcessExit.terminated (ProcessExit.run m calls p) = None
   <-> ProcessExit.terminated p = None
       /\ existsb ProcessExit.isExported calls = false).
Proof.
  unfold ProcessExit.run.
  induction calls as [|c r IH]; intros p Hm Hp; simpl; [tauto|].
  destruct p as [f t ws]. simpl in Hp. subst f.
  assert (Hstep : ProcessExit.process_exit
                    (ProcessExit.step m c (ProcessExit.mkProcess ProcessExit.PreventedExit t ws))
                  = ProcessExit.PreventedExit).
  { destruct c as [args|code]; simpl;
      unfold ProcessExit.callProcessExit, ProcessExit.exit, ProcessExit.call; simpl;
      rewrite ?Hm; destruct t; reflexivity. }
  rewrite (IH _ Hm Hstep). simpl.
  destruct c as [args|code]; simpl;
    unfold ProcessExit.callProcessExit, ProcessExit.exit, ProcessExit.call; simpl;
    rewrite ?Hm; destruct t; simpl; try tauto;
    split; intros [H1 H2]; discriminate.
Qed.

(** C10.  Once the module is loaded in a running process whose
    [process.exit] is the native one, a call of [process.exit] with any
    arguments leaves the process running and writes the stack of the
    error to [console.warn]; a sequence of calls of [process.exit] and of
    the exported [exit] leaves the process running exactly when it has no
    call of the exported [exit]; and the exported [exit] terminates the
    process with its code. *)
Theorem process_exit_prevented warns :
  let loaded := ProcessExit.load (ProcessExit.mkProcess ProcessExit.NativeExit None warns) in
  let m := fst loaded in
  let p := snd loaded in
  (forall args,
     ProcessExit.callProcessExit args p
     = ProcessExit.mkProcess ProcessExit.PreventedExit None
         (warns ++ [ProcessExit.StackOf ProcessExit.preventedMessage]))
  /\ (forall calls,
        ProcessExit.terminated (ProcessExit.run m calls p) = None
        <-> existsb ProcessExit.isExported calls = false)
  /\ (forall code, ProcessExit.terminated (ProcessExit.exit m code p) = Some code).
Proof.
  simpl. split; [reflexivity|]. split; [|reflexivity].
  intros calls. rewrite run_prevented by reflexivity. simpl. tauto.
Qed.

(* ================================================================== *)
(** ** The theorems at concrete hosts                                  *)
(* ================================================================== *)

Import Example Exotic.

(** The merge of a builtin, a user-installed and a development
    description of one id, and of another builtin description. *)
Example merge_three_sources :
  mergePlugins [pluginA; pluginB] [userA] [devA] []
  = (Returned [devA; pluginB],
     [ mkMessage Warning
         (Text "Overwriting extension /app/extensions/a with /home/u/extensions/a") "";
       mkMessage Info (Text "Loading development extension at /dev/a") "";
       mkMessage Warning
         (Text "Overwriting extension /home/u/extensions/a with /dev/a") "" ]).
Proof. reflexivity. Qed.

(** Two builtin descriptions of one id: the later one stays, silently. *)
Example merge_builtin_twice :
  mergePlugins [pluginA; devA] [] [] [] = (Returned [devA], []).
Proof. reflexivity. Qed.

(** One probe for [pkg.json], declared twice, and one for [Cargo.toml];
    only the existing one is dispatched, after the universal event. *)
Example eager_in_workspace :
  let w := snd (handleEagerPlugins joinPaths onlyPkgJson inWorkspace
                  (withRegistry [pluginA; pluginB])) in
  probed w = [("/ws/pkg.json", "pkg.json"); ("/ws/Cargo.toml", "Cargo.toml")]
  /\ activated w = ["*"; "workspaceContains:pkg.json"].
Proof. split; reflexivity. Qed.

(** C1 fails as stated: the builtin scan fulfils with [pluginA], the
    user-installed scan is the only one that rejects, and [pluginA] is
    not registered. *)
Lemma rejected_user_scan_drops_builtin :
  map snd (scansOf "/app/extensions" scanBuiltinOnly scanBuiltinOnly envWithUserHome)
  = [Fulfilled [pluginA]; Rejected (ErrorValue "EACCES"); Fulfilled []]
  /\ ~ In pluginA
         (registry (snd (start "/app/extensions" scanBuiltinOnly scanBuiltinOnly
                           joinPaths everythingExists noTestRunner noWorkspace
                           emptyWorld))).
Proof. split; [reflexivity | vm_compute; tauto]. Qed.

(** The same host: nothing is registered, registration is signalled done
    and the universal event is dispatched. *)
Lemma scan_rejection_registers_nothing_witness :
  let scans := scansOf "/app/extensions" scanBuiltinOnly scanBuiltinOnly envWithUserHome in
  let w' := snd (start "/app/extensions" scanBuiltinOnly scanBuiltinOnly
                   joinPaths everythingExists noTestRunner noWorkspace emptyWorld) in
  existsb isPending (map snd scans) = false
  /\ existsb isRejected (map snd scans) = true
  /\ registry w' = []
  /\ registrationDone w' = [collector w']
  /\ activated w' = ["*"].
Proof.
  split; [reflexivity|]. split; [reflexivity|].
  destruct (scan_rejection_registers_nothing "/app/extensions" scanBuiltinOnly
              scanBuiltinOnly joinPaths everythingExists noTestRunner noWorkspace
              emptyWorld eq_refl eq_refl) as (H1 & _ & H3 & H4).
  split; [exact H1|]. split; [exact H3 | exact H4].
Defined.

(** The names the concrete registries declare. *)
Lemma declares_pkg_json : declares [pluginA; pluginB] "pkg.json".
Proof. exists pluginA, ["workspaceContains:pkg.json"; "onLanguage:go"; "workspaceContains:Cargo.toml"]. simpl. auto. Qed.

Lemma declares_empty_name : declares [emptyNamed; pluginA] "".
Proof. exists emptyNamed, ["workspaceContains:"]. simpl. auto. Qed.

(** C6 fails as stated: the empty name is declared, the path probed for
    it exists, and its event is not dispatched. *)
Lemma existing_empty_name_not_dispatched :
  let w := withRegistry [emptyNamed; pluginA] in
  let w' := snd (handleWorkspaceContainsEagerPlugins joinPaths everythingExists
                   inWorkspace w) in
  declares (registry w) ""
  /\ everythingExists (joinPaths "/ws" "") = true
  /\ ~ (In (workspaceContains "") (newlyActivated w w')
        <-> everythingExists (joinPaths "/ws" "") = true).
Proof.
  split; [exact declares_empty_name|]. split; [reflexivity|].
  intros [_ H]. specialize (H eq_refl). vm_compute in H.
  repeat destruct H as [H|H]; try discriminate H. exact H.
Qed.

(** [pkg.json] exists in the workspace [/ws]: probed, and dispatched once. *)
Lemma dispatch_iff_exists_witness :
  let w := withRegistry [pluginA; pluginB] in
  let w' := snd (handleWorkspaceContainsEagerPlugins joinPaths onlyPkgJson inWorkspace w) in
  In ("/ws/pkg.json", "pkg.json") (newlyProbed w w')
  /\ (In "workspaceContains:pkg.json" (newlyActivated w w') <-> true = true)
  /\ count_occ string_dec (newlyActivated w w') "workspaceContains:pkg.json" = 1.
Proof.
  assert (Hne : "pkg.json" <> "") by discriminate.
  assert (Hproto : "pkg.json" <> "__proto__") by discriminate.
  exact (dispatch_iff_exists joinPaths onlyPkgJson inWorkspace "/ws"
           (withRegistry [pluginA; pluginB]) "pkg.json" eq_refl declares_pkg_json
           Hne Hproto).
Defined.

(** C7 fails as stated: the empty name is probed at the workspace folder
    itself, the folder exists, and [workspaceContains:] is not among the
    events dispatched. *)
Lemma empty_name_event_not_dispatched :
  let w' := snd (handleEagerPlugins joinPaths onlyPkgJson inWorkspace
                   (withRegistry [emptyNamed])) in
  probed w' = [("/ws", "")]
  /\ onlyPkgJson "/ws" = true
  /\ ~ In "workspaceContains:" (activated w').
Proof.
  split; [reflexivity|]. split; [reflexivity|].
  vm_compute. intros [H|[]]. discriminate H.
Qed.

(** The empty name, where every path exists: probed at [/ws], not dispatched. *)
Lemma empty_name_probed_not_dispatched_witness :
  let w := withRegistry [emptyNamed; pluginA] in
  let w' := snd (handleWorkspaceContainsEagerPlugins joinPaths everythingExists
                   inWorkspace w) in
  In ("/ws", "") (newlyProbed w w')
  /\ ~ In "workspaceContains:" (newlyActivated w w').
Proof.
  exact (empty_name_probed_not_dispatched joinPaths everythingExists inWorkspace "/ws"
           (withRegistry [emptyNamed; pluginA]) eq_refl declares_empty_name).
Defined.

(** No workspace: the universal event only, and no probe. *)
Lemma no_workspace_only_universal_witness :
  let r := handleEagerPlugins joinPaths everythingExists noWorkspace
             (withRegistry [pluginA; pluginB]) in
  fst r = Fulfilled tt /\ activated (snd r) = ["*"] /\ probed (snd r) = [].
Proof.
  exact (no_workspace_only_universal joinPaths everythingExists noWorkspace
           (withRegistry [pluginA; pluginB]) (or_introl eq_refl)).
Defined.

(** C2.  At the id [__proto__], which occurs in the builtin and in the
    user-installed list, the merge keeps no entry and records no warning:
    both assignments run the setter of the prototype and create no key. *)
Theorem proto_id_has_no_entry :
  In "__proto__" (ids [protoBuiltin])
  /\ In "__proto__" (ids [protoUser])
  /\ mergePlugins [protoBuiltin] [protoUser] [] [] = (Returned [], []).
Proof. repeat split; simpl; auto. Qed.

(** C3.  A description with the id [__proto__] is lost by the merge: the
    ids of the merged list are not the ids of the inputs. *)
Theorem proto_id_is_lost :
  mergePlugins [protoBuiltin; pluginB] [] [] [] = (Returned [pluginB], [])
  /\ In "__proto__" (ids [protoBuiltin; pluginB])
  /\ ~ In "__proto__" (ids [pluginB]).
Proof.
  split; [reflexivity|]. split; [simpl; auto|].
  simpl. intros [H|[]]. discriminate H.
Qed.

(** C4.  After a builtin description with the id [hasOwnProperty], the
    guard of the first development description throws, after its
    information message: the second development description gets no
    diagnostic and nothing is merged. *)
Theorem shadowed_guard_stops_the_merge :
  mergePlugins [shadowing] [] [devQ; devR] []
  = (Threw notAFunction, [loadingInfo devQ]).
Proof. reflexivity. Qed.

(** C5.  A declared name [__proto__] is not probed: the assignment on
    the map of desired files creates no key for it. *)
Theorem proto_name_not_probed :
  declares [protoNamed] "__proto__"
  /\ probed (snd (handleWorkspaceContainsEagerPlugins joinPaths everythingExists
                    inWorkspace (withRegistry [protoNamed]))) = [].
Proof.
  split; [|reflexivity].
  exists protoNamed, ["workspaceContains:__proto__"]. simpl. auto.
Qed.

(* ================================================================== *)
(** ** More on the merge                                               *)
(* ================================================================== *)

Lemma not_shadowed l : ~ In "hasOwnProperty" (ids l) -> shadowed l = false.
Proof.
  intros H. destruct (shadowed l) eqn:S; [|reflexivity].
  apply shadowed_In in S. contradiction.
Qed.

(** Without an id [hasOwnProperty] the merge returns the values of a map
    that represents the inputs. *)
Lemma mergePlugins_ok B U D c :
  ~ In "hasOwnProperty" (ids (B ++ U ++ D)) ->
  exists m,
    Represents m (B ++ U ++ D)
    /\ mergePlugins B U D c
       = (Returned (Object_values m),
          c ++ overwriteWarnings B U ++ devDiagnostics (B ++ U) D).
Proof.
  intros H. destruct (mergeLoops_ok B U D c (not_shadowed _ H)) as (m & E & HR).
  exists m. split; [exact HR|]. unfold mergePlugins. now rewrite E.
Qed.

Lemma ids_values (m : JsObject IPluginDescription) :
  (forall k v, In (k, v) m -> id v = k) ->
  ids (map snd m) = ownKeys m.
Proof.
  unfold ids, ownKeys. induction m as [|[k v] r IH]; simpl; intros H; [reflexivity|].
  rewrite (H k v (or_introl eq_refl)). f_equal. apply IH. intros; apply H; now right.
Qed.

Lemma Represents_NoDup_values m seen :
  Represents m seen -> NoDup (ids (Object_values m)).
Proof.
  intros HR. pose proof HR as [Hnd _].
  apply (Permutation_NoDup (l := ownKeys m)); [|exact Hnd].
  rewrite <- (ids_values m) by (intros; eapply Represents_entry; eauto).
  unfold ids. apply Permutation_map. symmetry.
  now apply Object_values_Permutation.
Qed.

(** X1.  Unless one of the ids is [hasOwnProperty], the merge returns a
    list without a repeated id, in which a description occurs exactly
    when its id is not [__proto__] and it is the last one with its id in
    the builtin, then user-installed, then development descriptions. *)
Theorem merged_iff_last B U D c :
  ~ In "hasOwnProperty" (ids (B ++ U ++ D)) ->
  exists merged,
    fst (mergePlugins B U D c) = Returned merged
    /\ NoDup (ids merged)
    /\ forall p, In p merged
                 <-> id p <> "__proto__" /\ findLast (id p) (B ++ U ++ D) = Some p.
Proof.
  intros H. destruct (mergePlugins_ok B U D c H) as (m & HR & E).
  exists (Object_values m). rewrite E.
  split; [reflexivity|]. split; [eapply Represents_NoDup_values; eauto|].
  intros p. rewrite (Represents_values _ _ p HR). unfold lastStored.
  destruct (String.eqb_spec (id p) "__proto__") as [Ep|Ep].
  - split; [discriminate | intros [Hn _]; contradiction].
  - tauto.
Qed.

Lemma lastStored_NoDup_None seen p l :
  NoDup (ids (seen ++ p :: l)) -> lastStored (id p) seen = None.
Proof.
  intros Hnd. destruct (lastStored (id p) seen) as [q|] eqn:E; [|reflexivity].
  exfalso. apply lastStored_Some in E as (_ & Hid & Hin).
  unfold ids in Hnd. rewrite map_app in Hnd. simpl in Hnd.
  apply NoDup_remove_2 in Hnd. apply Hnd, in_or_app. left.
  rewrite <- Hid. now apply in_map.
Qed.

Lemma overwriteWarnings_NoDup l : forall seen,
  NoDup (ids (seen ++ l)) -> overwriteWarnings seen l = [].
Proof.
  induction l as [|p r IH]; intros seen Hnd; simpl; [reflexivity|].
  rewrite IH by now rewrite <- app_assoc.
  unfold overwriteWarning. now rewrite (lastStored_NoDup_None _ _ _ Hnd).
Qed.

Lemma devDiagnostics_NoDup l : forall seen,
  NoDup (ids (seen ++ l)) -> devDiagnostics seen l = map loadingInfo l.
Proof.
  induction l as [|p r IH]; intros seen Hnd; simpl; [reflexivity|].
  rewrite IH by now rewrite <- app_assoc.
  unfold overwriteWarning. now rewrite (lastStored_NoDup_None _ _ _ Hnd).
Qed.

Lemma findLast_NoDup l p :
  NoDup (ids l) -> In p l -> findLast (id p) l = Some p.
Proof.
  induction l as [|q r IH]; simpl; intros Hnd Hin; [contradiction|].
  inversion Hnd as [|? ? Hq Hr]; subst.
  destruct Hin as [->|Hin].
  - apply findLast_None in Hq. now rewrite Hq, String.eqb_refl.
  - now rewrite (IH Hr Hin).
Qed.

(** X2.  When no id occurs twice in the three inputs together and none
    is [hasOwnProperty], the merge warns of nothing and loses nothing
    but the description with the id [__proto__], if there is one: the
    merged list holds exactly the other input descriptions, and the only
    diagnostics are the information messages of the development
    descriptions, in order. *)
Theorem merge_without_conflict B U D c :
  NoDup (ids (B ++ U ++ D)) ->
  ~ In "hasOwnProperty" (ids (B ++ U ++ D)) ->
  exists merged,
    mergePlugins B U D c = (Returned merged, c ++ map loadingInfo D)
    /\ Permutation merged (filter storable (B ++ U ++ D)).
Proof.
  intros Hnd H. destruct (mergePlugins_ok B U D c H) as (m & HR & E).
  exists (Object_values m). split.
  - rewrite E. f_equal.
    rewrite overwriteWarnings_NoDup, devDiagnostics_NoDup; [reflexivity| |].
    + now rewrite <- app_assoc.
    + rewrite app_assoc in Hnd. unfold ids in *. rewrite map_app in Hnd.
      now apply NoDup_app_remove_r in Hnd.
  - apply NoDup_Permutation.
    + apply (NoDup_map_inv id). eapply Represents_NoDup_values; eauto.
    + apply NoDup_filter. now apply (NoDup_map_inv id).
    + intros p. rewrite (Represents_values _ _ p HR), filter_In.
      unfold lastStored, storable.
      destruct (String.eqb_spec (id p) "__proto__") as [Ep|Ep]; simpl.
      * split; [discriminate | intros [_ Hf]; discriminate].
      * split.
        -- intros Hl. apply findLast_Some in Hl. tauto.
        -- intros [Hin _]. now apply findLast_NoDup.
Qed.

Lemma overwriteWarning_shape seen p msg :
  In msg (overwriteWarning seen p) -> source msg = "" /\ type msg = Warning.
Proof.
  unfold overwriteWarning. destruct (lastStored (id p) seen); [|contradiction].
  intros [<-|[]]. auto.
Qed.

Lemma overwriteWarning_length seen p : List.length (overwriteWarning seen p) <= 1.
Proof. unfold overwriteWarning. destruct (lastStored (id p) seen); simpl; lia. Qed.

Lemma overwriteWarnings_length l : forall seen,
  List.length (overwriteWarnings seen l) <= List.length l.
Proof.
  induction l as [|p r IH]; intros seen; simpl; [lia|].
  rewrite length_app. specialize (IH (seen ++ [p])).
  pose proof (overwriteWarning_length seen p). lia.
Qed.

Lemma filter_isWarning_overwriteWarnings l : forall seen,
  filter isWarning (overwriteWarnings seen l) = overwriteWarnings seen l.
Proof.
  induction l as [|p r IH]; intros seen; simpl; [reflexivity|].
  rewrite filter_app, IH. f_equal.
  unfold overwriteWarning. now destruct (lastStored (id p) seen).
Qed.

Lemma filter_isWarning_devDiagnostics l : forall seen,
  filter isWarning (devDiagnostics seen l) = overwriteWarnings seen l.
Proof.
  induction l as [|p r IH]; intros seen; simpl; [reflexivity|].
  rewrite filter_app, IH. f_equal.
  unfold overwriteWarning. now destruct (lastStored (id p) seen).
Qed.

Lemma filter_isInfo_overwriteWarnings l : forall seen,
  filter isInfo (overwriteWarnings seen l) = [].
Proof.
  induction l as [|p r IH]; intros seen; simpl; [reflexivity|].
  rewrite filter_app, IH. unfold overwriteWarning.
  now destruct (lastStored (id p) seen).
Qed.

Lemma filter_isInfo_devDiagnostics l : forall seen,
  filter isInfo (devDiagnostics seen l) = map loadingInfo l.
Proof.
  induction l as [|p r IH]; intros seen; simpl; [reflexivity|].
  rewrite filter_app, IH. unfold overwriteWarning.
  now destruct (lastStored (id p) seen).
Qed.

Lemma devDiagnostics_shape l : forall seen msg,
  In msg (devDiagnostics seen l) ->
  source msg = "" /\ (type msg = Info \/ type msg = Warning).
Proof.
  induction l as [|p r IH]; intros seen msg; simpl; [contradiction|].
  intros [<-|Hin]; [auto|]. apply in_app_or in Hin as [Hin|Hin].
  - apply overwriteWarning_shape in Hin as [? ?]. auto.
  - eapply IH; eauto.
Qed.

Lemma overwriteWarnings_shape l : forall seen msg,
  In msg (overwriteWarnings seen l) -> source msg = "" /\ type msg = Warning.
Proof.
  induction l as [|p r IH]; intros seen msg; simpl; [contradiction|].
  intros Hin. apply in_app_or in Hin as [Hin|Hin].
  - now apply overwriteWarning_shape in Hin.
  - eapply IH; eauto.
Qed.

(** What the merge adds to the collector, in its three cases. *)
Lemma mergePlugins_emitted B U D c :
  (snd (mergePlugins B U D c)
   = c ++ overwriteWarnings B U ++ devDiagnostics (B ++ U) D)
  \/ (exists U1 u U2,
        U = U1 ++ u :: U2
        /\ In "hasOwnProperty" (ids (B ++ U ++ D))
        /\ snd (mergePlugins B U D c) = c ++ overwriteWarnings B U1)
  \/ (exists D1 d D2,
        D = D1 ++ d :: D2
        /\ In "hasOwnProperty" (ids (B ++ U ++ D))
        /\ snd (mergePlugins B U D c)
           = c ++ overwriteWarnings B U ++ devDiagnostics (B ++ U) D1
               ++ [loadingInfo d]).
Proof.
  unfold mergePlugins.
  destruct (mergeLoops_cases B U D c)
    as [(m & -> & _)|[(U1 & u & U2 & EU & S & ->)|(D1 & d & D2 & ED & S & ->)]].
  - now left.
  - right. left. exists U1, u, U2. repeat split; auto.
    apply shadowed_In. apply (shadowed_incl _ _ ) with (2 := S).
    subst U. intros x. rewrite !in_app_iff. simpl. tauto.
  - right. right. exists D1, d, D2. repeat split; auto.
    apply shadowed_In. apply (shadowed_incl _ _ ) with (2 := S).
    subst D. intros x. rewrite !in_app_iff. simpl. tauto.
Qed.

(** X3.  Whether it returns or throws, the merge keeps what the
    collector held and adds diagnostics that all have the empty source
    and the severity information or warning, never error: the
    information messages of the first development descriptions, in
    order, and at most one warning for every user-installed or
    development description.  Unless one of the ids is
    [hasOwnProperty], the diagnostics are the warnings of the
    user-installed descriptions in their order, then for each development
    description in order its information message and its warning if the
    map held its id, so that every development description has its
    information message. *)
Theorem merge_diagnostics_shape B U D c :
  exists emitted,
    snd (mergePlugins B U D c) = c ++ emitted
    /\ (forall msg, In msg emitted ->
          source msg = "" /\ (type msg = Info \/ type msg = Warning))
    /\ (exists later, map loadingInfo D = filter isInfo emitted ++ later)
    /\ List.length (filter isWarning emitted) <= List.length U + List.length D
    /\ (~ In "hasOwnProperty" (ids (B ++ U ++ D)) ->
        emitted = overwriteWarnings B U ++ devDiagnostics (B ++ U) D
        /\ filter isInfo emitted = map loadingInfo D).
Proof.
  destruct (mergePlugins_emitted B U D c)
    as [E|[(U1 & u & U2 & -> & Hs & E)|(D1 & d & D2 & -> & Hs & E)]].
  - exists (overwriteWarnings B U ++ devDiagnostics (B ++ U) D).
    split; [exact E|]. split; [|split; [|split]].
    + intros msg Hin. apply in_app_or in Hin as [Hin|Hin].
      * apply overwriteWarnings_shape in Hin as [? ?]. auto.
      * eapply devDiagnostics_shape; eauto.
    + exists []. now rewrite filter_app, filter_isInfo_overwriteWarnings,
        filter_isInfo_devDiagnostics, app_nil_r.
    + rewrite filter_app, filter_isWarning_overwriteWarnings,
        filter_isWarning_devDiagnostics, length_app.
      pose proof (overwriteWarnings_length U B).
      pose proof (overwriteWarnings_length D (B ++ U)). lia.
    + intros _. split; [reflexivity|].
      now rewrite filter_app, filter_isInfo_overwriteWarnings,
        filter_isInfo_devDiagnostics.
  - exists (overwriteWarnings B U1).
    split; [exact E|]. split; [|split; [|split]].
    + intros msg Hin. apply overwriteWarnings_shape in Hin as [? ?]. auto.
    + exists (map loadingInfo D). now rewrite filter_isInfo_overwriteWarnings.
    + rewrite filter_isWarning_overwriteWarnings, length_app.
      pose proof (overwriteWarnings_length U1 B). simpl. lia.
    + intros Hn. contradiction.
  - exists (overwriteWarnings B U ++ devDiagnostics (B ++ U) D1 ++ [loadingInfo d]).
    split; [exact E|]. split; [|split; [|split]].
    + intros msg Hin. apply in_app_or in Hin as [Hin|Hin].
      * apply overwriteWarnings_shape in Hin as [? ?]. auto.
      * apply in_app_or in Hin as [Hin|[<-|[]]]; [|auto].
        eapply devDiagnostics_shape; eauto.
    + exists (map loadingInfo D2).
      rewrite !filter_app, filter_isInfo_overwriteWarnings,
        filter_isInfo_devDiagnostics, map_app. simpl.
      now rewrite <- app_assoc.
    + rewrite !filter_app, filter_isWarning_overwriteWarnings,
        filter_isWarning_devDiagnostics, !length_app. simpl.
      pose proof (overwriteWarnings_length U B).
      pose proof (overwriteWarnings_length D1 (B ++ U)). lia.
    + intros Hn. contradiction.
Qed.

Lemma builtin_loop_map l : forall m c,
  forEach l addBuiltin (Running m c) = Running (assignAll l m) c.
Proof. induction l as [|p r IH]; intros m c; simpl; [reflexivity | apply IH]. Qed.

Lemma user_loop_map l : forall m c m' c',
  forEach l addUser (Running m c) = Running m' c' -> m' = assignAll l m.
Proof.
  induction l as [|p r IH]; intros m c m' c'; simpl.
  - now intros [= -> _].
  - destruct (warnIfOwn m p c) as [c1|e].
    + apply IH.
    + rewrite user_Failed. discriminate.
Qed.

Lemma dev_loop_map l : forall m c m' c',
  forEach l addDev (Running m c) = Running m' c' -> m' = assignAll l m.
Proof.
  induction l as [|p r IH]; intros m c m' c'; simpl.
  - now intros [= -> _].
  - destruct (warnIfOwn m p _) as [c1|e].
    + apply IH.
    + rewrite dev_Failed. discriminate.
Qed.

Lemma assignAll_app l1 l2 m : assignAll (l1 ++ l2) m = assignAll l2 (assignAll l1 m).
Proof. apply fold_left_app. Qed.

(** The map of the three loops, when they run through, is the map of
    the assignments alone. *)
Lemma mergeLoops_map B U D c m c' :
  mergeLoops B U D c = Running m c' -> m = assignAll (B ++ U ++ D) [].
Proof.
  unfold mergeLoops. rewrite builtin_loop_map, !assignAll_app.
  destruct (forEach U addUser _) as [m2 c2|e c2] eqn:EU.
  - apply user_loop_map in EU. subst m2. apply dev_loop_map.
  - rewrite dev_Failed. discriminate.
Qed.

(** X4.  Unless one of the ids is [hasOwnProperty], the sources differ
    in their diagnostics only: the merged list of three sources is the
    merged list of their concatenation taken as one builtin source, and
    it does not depend on what the collector held. *)
Theorem merge_is_positional B U D c c' :
  ~ In "hasOwnProperty" (ids (B ++ U ++ D)) ->
  fst (mergePlugins B U D c) = fst (mergePlugins (B ++ U ++ D) [] [] c').
Proof.
  intros H. unfold mergePlugins.
  destruct (mergeLoops_ok B U D c (not_shadowed _ H)) as (m & E & _).
  rewrite E. apply mergeLoops_map in E. subst m.
  unfold mergeLoops. simpl. rewrite builtin_loop_map. reflexivity.
Qed.
(* ================================================================== *)
(** ** More on eager activation                                        *)
(* ================================================================== *)

(** X5.  The name taken from the event [workspaceContains:<name>] is
    [<name>] again, whatever the name is, and becomes a key of the map of
    desired files while no other key changes; only for the name
    [__proto__] no key is created and the map stays as it is.  An event
    that is not of this form leaves the map as it is. *)
Theorem event_name_round_trip (m : JsObject bool) :
  (forall n, n <> "__proto__" ->
     hasOwnProperty (addDesiredFile (workspaceContains n) m) n = true
     /\ forall k, k <> n ->
          hasOwnProperty (addDesiredFile (workspaceContains n) m) k
          = hasOwnProperty m k)
  /\ addDesiredFile (workspaceContains "__proto__") m = m
  /\ (forall ev, (forall n, ev <> workspaceContains n) -> addDesiredFile ev m = m).
Proof.
  assert (Hwc : forall n, addDesiredFile (workspaceContains n) m = setProp m n true).
  { intros n. destruct (addDesiredFile_spec (workspaceContains n) m)
      as [[_ Hno]|(n0 & E & ->)].
    - now exfalso; apply (Hno n).
    - now apply workspaceContains_inj in E as <-. }
  split; [|split].
  - intros n Hn. rewrite Hwc, (setProp_putOwn _ _ _ Hn). split.
    + now rewrite hasOwnProperty_getProp, getProp_putOwn_same.
    + intros k Hk. rewrite !hasOwnProperty_getProp.
      now rewrite getProp_putOwn_other.
  - now rewrite Hwc.
  - intros ev Hno. destruct (addDesiredFile_spec ev m) as [[-> _]|(n0 & E & _)].
    + reflexivity.
    + now exfalso; apply (Hno n0).
Qed.

Lemma declares_allEvents descs n :
  declares descs n -> In (workspaceContains n) (allEvents descs).
Proof.
  intros (d & evs & Hin & He & Hev). unfold allEvents.
  apply in_flat_map. exists d. split; [exact Hin|]. now rewrite He.
Qed.

Lemma allEvents_declares descs n :
  In (workspaceContains n) (allEvents descs) -> declares descs n.
Proof.
  unfold allEvents. intros H. apply in_flat_map in H as (d & Hin & Hev).
  destruct (activationEvents d) as [evs|] eqn:He; [|contradiction].
  now exists d, evs.
Qed.

Lemma length_allEvents descs : List.length (allEvents descs) = eventCount descs.
Proof.
  unfold allEvents, eventCount. induction descs as [|d r IH]; simpl; [reflexivity|].
  rewrite length_app, IH. now destruct (activationEvents d).
Qed.

Lemma NoDup_map_workspaceContains names :
  NoDup names -> NoDup (map workspaceContains names).
Proof.
  induction 1 as [|n r Hn Hr IH]; simpl; constructor; [|exact IH].
  rewrite in_map_iff. intros (n' & E & Hin).
  apply workspaceContains_inj in E. now subst.
Qed.

Lemma desiredFiles_length descs :
  List.length (desiredFiles descs) <= eventCount descs.
Proof.
  destruct (desiredFiles_spec descs) as [Hnd Hin].
  rewrite <- length_allEvents, <- (length_map workspaceContains).
  apply NoDup_incl_length.
  - now apply NoDup_map_workspaceContains.
  - intros ev Hev. apply in_map_iff in Hev as (n & <- & Hn).
    now apply declares_allEvents, Hin.
Qed.

(** X20.  With a workspace folder, the probes issued are those of a list
    of names, each for the path joined from the folder and the name, in
    which every declared name other than [__proto__] occurs exactly once
    and no other name occurs. *)
Theorem probes_each_name_once paths_join exists_ this folder w :
  workspaceRoot this = Some folder ->
  let w' := snd (handleWorkspaceContainsEagerPlugins paths_join exists_ this w) in
  exists names,
    probed w' = probed w ++ map (fun n => (paths_join folder n, n)) names
    /\ forall n,
         (declares (registry w) n -> n <> "__proto__" ->
          count_occ string_dec names n = 1)
         /\ (~ declares (registry w) n \/ n = "__proto__" ->
             count_occ string_dec names n = 0).
Proof.
  intros Hroot. simpl. rewrite (workspaceContains_run _ _ _ folder w Hroot). simpl.
  exists (desiredFiles (registry w)). split; [reflexivity|].
  destruct (desiredFiles_spec (registry w)) as [Hnd Hin].
  intros n. rewrite (count_occ_NoDup _ n Hnd).
  destruct (in_dec string_dec n (desiredFiles (registry w))) as [H|H];
    rewrite Hin in H; split; try reflexivity.
  - intros [Hd|Hp]; tauto.
  - intros Hd Hp. tauto.
Qed.

Lemma universal_not_workspaceContains n : "*" <> workspaceContains n.
Proof. discriminate. Qed.

(** X6.  Eager activation fulfils and touches neither the registry, nor
    the collector, nor the record of the registration, nor the exit
    timers; what was dispatched, probed and logged before stays, in
    front of what it adds. *)
Theorem eager_activation_frame paths_join exists_ this w :
  let r := handleEagerPlugins paths_join exists_ this w in
  fst r = Fulfilled tt
  /\ registry (snd r) = registry w
  /\ collector (snd r) = collector w
  /\ registrationDone (snd r) = registrationDone w
  /\ exitTimers (snd r) = exitTimers w
  /\ activated (snd r) = activated w ++ newlyActivated w (snd r)
  /\ probed (snd r) = probed w ++ newlyProbed w (snd r).
Proof.
  simpl. rewrite handleEagerPlugins_run. unfold newlyActivated, newlyProbed.
  simpl. rewrite !skipn_length_app. repeat split.
Qed.

(** X7.  The universal event is the first event eager activation
    dispatches, and it is dispatched once. *)
Theorem universal_event_first_once paths_join exists_ this w :
  let w' := snd (handleEagerPlugins paths_join exists_ this w) in
  exists others,
    newlyActivated w w' = "*" :: others /\ ~ In "*" others.
Proof.
  simpl. rewrite handleEagerPlugins_run. unfold newlyActivated. simpl.
  rewrite skipn_length_app. unfold planned.
  eexists. split; [reflexivity|].
  destruct (workspaceRoot this); [|tauto].
  rewrite in_map_iff. intros (n & E & _).
  symmetry in E. now apply universal_not_workspaceContains in E.
Qed.

(** X8.  Every event eager activation dispatches besides the universal
    one is, as it stands, an activation event of a registered
    description; it names a file that is not the empty name, that was
    probed under the workspace folder, and whose path exists. *)
Theorem dispatched_events_were_declared paths_join exists_ this w ev :
  let w' := snd (handleEagerPlugins paths_join exists_ this w) in
  In ev (newlyActivated w w') ->
  ev = "*"
  \/ (In ev (allEvents (registry w))
      /\ exists folder n,
           workspaceRoot this = Some folder
           /\ ev = workspaceContains n
           /\ n <> ""
           /\ In (paths_join folder n, n) (newlyProbed w w')
           /\ exists_ (paths_join folder n) = true).
Proof.
  simpl. rewrite handleEagerPlugins_run. unfold newlyActivated, newlyProbed.
  simpl. rewrite !skipn_length_app. unfold planned, probes.
  intros [<-|Hin]; [now left|]. right.
  destruct (workspaceRoot this) as [folder|]; [|contradiction].
  apply in_map_iff in Hin as (n & <- & Hn).
  apply filter_In in Hn as [Hn Hkeep].
  apply andb_true_iff in Hkeep as [Hne Hex].
  destruct (desiredFiles_spec (registry w)) as [_ Hdecl].
  split; [now apply declares_allEvents, Hdecl|].
  exists folder, n. repeat split; auto.
  - intros ->. discriminate Hne.
  - apply in_map_iff. now exists n.
Qed.

(** X9.  Eager activation issues at most as many probes as the registered
    descriptions declare activation events, and dispatches at most one
    event more than it issues probes. *)
Theorem eager_activation_bounds paths_join exists_ this w :
  let w' := snd (handleEagerPlugins paths_join exists_ this w) in
  List.length (newlyProbed w w') <= eventCount (registry w)
  /\ List.length (newlyActivated w w') <= 1 + List.length (newlyProbed w w').
Proof.
  simpl. rewrite handleEagerPlugins_run. unfold newlyActivated, newlyProbed.
  simpl. rewrite !skipn_length_app. unfold planned, probes.
  destruct (workspaceRoot this) as [folder|]; simpl; [|lia].
  rewrite !length_map. split.
  - apply desiredFiles_length.
  - apply le_n_S, filter_length_le.
Qed.

(* ================================================================== *)
(** ** The extension tests and the start-up sequence as a whole        *)
(* ================================================================== *)

Lemma tests_not_configured_aux nodeRequire this w :
  testsConfigured this = false ->
  handlePluginTests nodeRequire this w = (Fulfilled tt, w).
Proof.
  unfold testsConfigured, handlePluginTests. intros H.
  apply andb_false_iff in H.
  destruct (truthy (pluginTestsPath (env (contextService this))));
    destruct (truthy (pluginDevelopmentPath (env (contextService this))));
    simpl; try reflexivity.
  destruct H; discriminate.
Qed.

(** X10.  Unless both the tests path and the development path are set
    (and not empty), [handlePluginTests] fulfils at once, leaves the
    world as it is and arms no exit; the module at the tests path is not
    asked for, so what requiring it would do does not matter. *)
Theorem tests_not_configured nodeRequire this w :
  testsConfigured this = false ->
  handlePluginTests nodeRequire this w = (Fulfilled tt, w).
Proof. apply tests_not_configured_aux. Qed.

Lemma armedBy_codes run code :
  In code (armedBy run) -> code = 0%Z \/ code = 1%Z.
Proof.
  unfold armedBy. rewrite in_flat_map. intros ([error failures|e] & _ & Hin);
    [|contradiction].
  destruct Hin as [<-|[]]. unfold exitCodeOf.
  destruct failures as [n|]; [destruct (0 <? n)%Z|]; auto.
Qed.

(** X11.  With both paths set, [handlePluginTests] changes nothing but
    the armed exits, and every armed exit has code 0 or 1.  Without a
    loaded runner it rejects and arms one exit with code 1.  With a
    runner it arms one exit for every call of the callback: none while
    the promise is pending, at least one when the promise is fulfilled,
    and none when the promise rejects because [run] throws before any
    callback. *)
Theorem tests_arm_exit_when_settled nodeRequire this w :
  testsConfigured this = true ->
  let r := handlePluginTests nodeRequire this w in
  collector (snd r) = collector w
  /\ registry (snd r) = registry w
  /\ registrationDone (snd r) = registrationDone w
  /\ activated (snd r) = activated w
  /\ probed (snd r) = probed w
  /\ consoleError (snd r) = consoleError w
  /\ exists path armed,
       pluginTestsPath (env (contextService this)) = Some path
       /\ exitTimers (snd r) = exitTimers w ++ armed
       /\ (forall code, In code armed -> code = 0%Z \/ code = 1%Z)
       /\ match nodeRequire path with
          | Loaded (Some run) =>
              fst r = runPromise run
              /\ armed = armedBy run
              /\ (isPending (fst r) = true -> armed = [])
              /\ (fst r = Fulfilled tt -> armed <> [])
              /\ (forall e later, run = RunThrows e :: later ->
                    fst r = Rejected (ErrorValue e) /\ armed = armedBy later)
          | _ => isRejected (fst r) = true /\ armed = [1%Z]
          end.
Proof.
  unfold testsConfigured, handlePluginTests. intros H.
  apply andb_true_iff in H as [H1 H2]. rewrite H1, H2. simpl.
  destruct (pluginTestsPath (env (contextService this))) as [path|];
    [|discriminate H1].
  destruct (nodeRequire path) as [e|[run|]] eqn:Er; simpl.
  - do 6 (split; [reflexivity|]). exists path, [1%Z]. rewrite Er.
    repeat split; auto. intros code [<-|[]]. auto.
  - unfold bind. rewrite runEvents_run. simpl.
    do 6 (split; [reflexivity|]). exists path, (armedBy run). rewrite Er.
    split; [reflexivity|]. split; [reflexivity|].
    split; [apply armedBy_codes|].
    split; [reflexivity|]. split; [reflexivity|]. split; [|split].
    + destruct run as [|[[e|] failures|e] later]; simpl; try discriminate; auto.
    + destruct run as [|[[e|] failures|e] later]; simpl; discriminate.
    + intros e later ->. simpl. auto.
  - do 6 (split; [reflexivity|]). exists path, [1%Z]. rewrite Er.
    repeat split; auto. intros code [<-|[]]. auto.
Qed.

Lemma join_not_Pending {A} (ps : list (TPromise A)) :
  existsb isPending ps = false -> isPending (join ps) = false.
Proof.
  intros H. unfold join. rewrite H. now destruct (joinErrors 0 ps).
Qed.

Lemma join_Pending {A} (ps : list (TPromise A)) :
  existsb isPending ps = true -> join ps = Pending.
Proof. intros H. unfold join. now rewrite H. Qed.

(** X12.  Once the three scans have settled, [start] settles as
    [handlePluginTests] does: neither a failed scan nor a failed
    activation makes it reject, and without configured tests it
    fulfils. *)
Theorem start_settles_as_tests
    BUILTIN_PLUGINS_PATH PluginScanner_scanPlugins PluginScanner_scanOneOrMultiplePlugins
    paths_join exists_ nodeRequire this w :
  let scans := scansOf BUILTIN_PLUGINS_PATH PluginScanner_scanPlugins
                 PluginScanner_scanOneOrMultiplePlugins (env (contextService this)) in
  existsb isPending (map snd scans) = false ->
  let r := start BUILTIN_PLUGINS_PATH PluginScanner_scanPlugins
             PluginScanner_scanOneOrMultiplePlugins paths_join exists_ nodeRequire
             this w in
  (forall w0, fst r = fst (handlePluginTests nodeRequire this w0))
  /\ (testsConfigured this = false -> fst r = Fulfilled tt).
Proof.
  intros scans Hp. cbv zeta. unfold start. rewrite readPlugins_run. cbv zeta.
  fold scans. apply join_not_Pending in Hp.
  assert (Hr : fst match join (map snd scans) with
                   | Fulfilled results =>
                       let (merged, c) :=
                         mergePlugins (nth 0 results []) (nth 1 results [])
                           (nth 2 results [])
                           (collector (setCollector (List.concat (map fst scans)) w)) in
                       match merged with
                       | Returned extensions =>
                           registerAndActivate paths_join exists_ nodeRequire this
                             extensions
                             (setCollector c
                                (setCollector (List.concat (map fst scans)) w))
                       | Threw err =>
                           registerAndActivate paths_join exists_ nodeRequire this []
                             (setCollector (collector_error c "" err)
                                (setCollector (List.concat (map fst scans)) w))
                       end
                   | Rejected err =>
                       registerAndActivate paths_join exists_ nodeRequire this []
                         (setCollector
                            (collector_error
                               (collector (setCollector (List.concat (map fst scans)) w))
                               "" err)
                            (setCollector (List.concat (map fst scans)) w))
                   | Pending => (Pending, setCollector (List.concat (map fst scans)) w)
                   end
                = fst (testsOutcome nodeRequire this)).
  { destruct (join (map snd scans)) as [results|err|]; [| |discriminate Hp].
    - destruct (mergePlugins _ _ _ _) as [[merged|err] c];
        now rewrite registerAndActivate_run.
    - now rewrite registerAndActivate_run. }
  split.
  - intros w0. rewrite handlePluginTests_run. exact Hr.
  - intros Hc. etransitivity; [exact Hr|].
    unfold testsOutcome. now rewrite (tests_not_configured_aux nodeRequire this _ Hc).
Qed.

(** X13.  When the three scans fulfil, [start] runs the merge after the
    messages of the scanners.  If the merge returns, exactly the merged
    list is registered; if it throws, nothing is registered and the
    error is added to the collector as an error diagnostic.  Either way
    the registration is signalled done once, with all messages the
    collector holds, and eager activation then runs over the registry as
    it then is. *)
Theorem start_registers_merged
    BUILTIN_PLUGINS_PATH PluginScanner_scanPlugins PluginScanner_scanOneOrMultiplePlugins
    paths_join exists_ nodeRequire this w B U D :
  let scans := scansOf BUILTIN_PLUGINS_PATH PluginScanner_scanPlugins
                 PluginScanner_scanOneOrMultiplePlugins (env (contextService this)) in
  map snd scans = [Fulfilled B; Fulfilled U; Fulfilled D] ->
  let w' := snd (start BUILTIN_PLUGINS_PATH PluginScanner_scanPlugins
                   PluginScanner_scanOneOrMultiplePlugins paths_join exists_
                   nodeRequire this w) in
  let merged := mergePlugins B U D (List.concat (map fst scans)) in
  match fst merged with
  | Returned extensions =>
      registry w' = registry w ++ extensions /\ collector w' = snd merged
  | Threw err =>
      registry w' = registry w
      /\ collector w' = snd merged ++ [mkMessage Error (ErrorObject err) ""]
  end
  /\ registrationDone w' = registrationDone w ++ [collector w']
  /\ exists w1,
       registry w1 = registry w'
       /\ activated w' = activated w ++ planned paths_join exists_ this w1
       /\ probed w' = probed w ++ probes paths_join this w1.
Proof.
  intros scans Hs. cbv zeta. unfold start. rewrite readPlugins_run. cbv zeta.
  fold scans. rewrite Hs.
  cbn [join existsb isPending joinErrors joinValues orb nth collector setCollector].
  destruct (mergePlugins B U D (List.concat (map fst scans))) as [[merged|err] c];
    rewrite registerAndActivate_run; cbn -[planned probes];
    (split; [split; rewrite ?app_nil_r; reflexivity|]);
    (split; [reflexivity|]);
    (eexists; split; [|split; reflexivity]); reflexivity.
Qed.

(** X14.  While one of the three scans stays pending, [start] stays
    pending, whatever the other scans did: nothing is registered, the
    registration is not signalled done, no event is dispatched, no path
    is probed and no exit is armed; the collector holds the messages of
    the scanners only. *)
Theorem start_waits_for_all_scans
    BUILTIN_PLUGINS_PATH PluginScanner_scanPlugins PluginScanner_scanOneOrMultiplePlugins
    paths_join exists_ nodeRequire this w :
  let scans := scansOf BUILTIN_PLUGINS_PATH PluginScanner_scanPlugins
                 PluginScanner_scanOneOrMultiplePlugins (env (contextService this)) in
  existsb isPending (map snd scans) = true ->
  let r := start BUILTIN_PLUGINS_PATH PluginScanner_scanPlugins
             PluginScanner_scanOneOrMultiplePlugins paths_join exists_ nodeRequire
             this w in
  fst r = Pending
  /\ collector (snd r) = List.concat (map fst scans)
  /\ registry (snd r) = registry w
  /\ registrationDone (snd r) = registrationDone w
  /\ activated (snd r) = activated w
  /\ probed (snd r) = probed w
  /\ exitTimers (snd r) = exitTimers w.
Proof.
  intros scans Hp. simpl. unfold start. rewrite readPlugins_run. fold scans.
  rewrite (join_Pending _ Hp). simpl. repeat split.
Qed.

(** X15.  Only the descriptions that are registered count for eager
    activation: a name that no description of the registry after
    [start] declares is neither probed nor dispatched by [start], even
    if a description that the merge replaced declares it. *)
Theorem start_ignores_replaced_descriptions
    BUILTIN_PLUGINS_PATH PluginScanner_scanPlugins PluginScanner_scanOneOrMultiplePlugins
    paths_join exists_ nodeRequire this w n :
  let w' := snd (start BUILTIN_PLUGINS_PATH PluginScanner_scanPlugins
                   PluginScanner_scanOneOrMultiplePlugins paths_join exists_
                   nodeRequire this w) in
  ~ declares (registry w') n ->
  (forall path, ~ In (path, n) (newlyProbed w w'))
  /\ ~ In (workspaceContains n) (newlyActivated w w').
Proof.
  cbv zeta. unfold start. rewrite readPlugins_run. cbv zeta.
  assert (Hreg : forall exts w1,
            registry w1 = registry w -> activated w1 = activated w ->
            probed w1 = probed w ->
            let w' := snd (registerAndActivate paths_join exists_ nodeRequire this
                             exts w1) in
            ~ declares (registry w') n ->
            (forall path, ~ In (path, n) (newlyProbed w w'))
            /\ ~ In (workspaceContains n) (newlyActivated w w')).
  { intros exts w1 Hr Ha Hp. cbv zeta. rewrite registerAndActivate_run.
    unfold newlyActivated, newlyProbed. cbn -[planned probes].
    rewrite Hr, Ha, Hp, !skipn_length_app. unfold planned, probes.
    cbn [registry registered]. rewrite Hr. intros Hn.
    destruct (desiredFiles_spec (registry w ++ exts)) as [_ Hdecl].
    destruct (workspaceRoot this) as [folder|]; split.
    - intros path Hin. apply in_map_iff in Hin as (n' & [= _ ->] & Hin).
      now apply Hn, Hdecl.
    - intros [H|H]; [discriminate H|].
      apply in_map_iff in H as (n' & E' & Hin).
      apply workspaceContains_inj in E'. subst n'.
      apply filter_In in Hin as [Hin _]. now apply Hn, Hdecl.
    - intros path [].
    - intros [H|[]]. discriminate H. }
  destruct (join _) as [results|err|].
  - destruct (mergePlugins _ _ _ _) as [[merged|err] c]; now apply Hreg.
  - now apply Hreg.
  - intros _. unfold newlyActivated, newlyProbed. simpl.
    rewrite !skipn_all. split; [intros path []|intros []].
Qed.

(* ================================================================== *)
(** ** More on the patched [process.exit]                              *)
(* ================================================================== *)

Lemma run_loaded m calls : forall t ws,
  ProcessExit.nativeExit m = ProcessExit.NativeExit ->
  ProcessExit.run m calls (ProcessExit.mkProcess ProcessExit.PreventedExit t ws)
  = match t with
    | Some code => ProcessExit.mkProcess ProcessExit.PreventedExit (Some code) ws
    | None =>
        ProcessExit.mkProcess ProcessExit.PreventedExit (firstExit calls)
          (ws ++ repeat (ProcessExit.StackOf ProcessExit.preventedMessage)
                   (preventedCalls calls))
    end.
Proof.
  unfold ProcessExit.run.
  induction calls as [|c r IH]; intros t ws Hm; simpl.
  - destruct t; [reflexivity | now rewrite app_nil_r].
  - destruct c as [args|code]; simpl;
      unfold ProcessExit.callProcessExit, ProcessExit.exit, ProcessExit.call; simpl;
      rewrite ?Hm; destruct t; simpl; rewrite (IH _ _ Hm);
      rewrite ?app_nil_r, <- ?app_assoc; reflexivity.
Qed.

(** X16.  Once the module is loaded in a running process whose
    [process.exit] is the native one, a sequence of calls of
    [process.exit] and of the exported [exit] ends with the process
    terminated by the first call of the exported [exit], with that
    call's code, or running if there is none; [process.exit] is still the
    patched function, and [console.warn] has received one stack for each
    call of [process.exit] made before the process terminated. *)
Theorem exit_calls_trace warns calls :
  let loaded := ProcessExit.load (ProcessExit.mkProcess ProcessExit.NativeExit None warns) in
  ProcessExit.run (fst loaded) calls (snd loaded)
  = ProcessExit.mkProcess ProcessExit.PreventedExit (firstExit calls)
      (warns ++ repeat (ProcessExit.StackOf ProcessExit.preventedMessage)
                  (preventedCalls calls)).
Proof. simpl. now rewrite run_loaded. Qed.

Lemma run_prevented_twice m calls : forall p,
  ProcessExit.nativeExit m = ProcessExit.PreventedExit ->
  ProcessExit.process_exit p = ProcessExit.PreventedExit ->
  ProcessExit.terminated p = None ->
  ProcessExit.terminated (ProcessExit.run m calls p) = None.
Proof.
  unfold ProcessExit.run.
  induction calls as [|c r IH]; intros [f t ws] Hm Hp Ht; simpl in *; [exact Ht|].
  subst f t. apply IH; [exact Hm | |];
    destruct c as [args|code]; simpl;
    unfold ProcessExit.callProcessExit, ProcessExit.exit, ProcessExit.call; simpl;
    rewrite ?Hm; reflexivity.
Qed.

(** X17.  The module keeps as [nativeExit] whatever [process.exit] is
    when it is loaded.  Loaded in a process whose [process.exit] is
    already the patched function, its exported [exit] terminates nothing
    either: no sequence of calls ends the process. *)
Theorem load_after_patch_cannot_exit p calls :
  ProcessExit.process_exit p = ProcessExit.PreventedExit ->
  ProcessExit.terminated p = None ->
  let loaded := ProcessExit.load p in
  ProcessExit.terminated (ProcessExit.run (fst loaded) calls (snd loaded)) = None.
Proof.
  intros Hp Ht. simpl. apply run_prevented_twice; simpl; auto.
Qed.

(** X18.  [gracefulExit(code)] arms one exit and has no other effect;
    when the armed exit fires in a process where the module was loaded
    over the native [process.exit], the process terminates with that
    code, however often [process.exit] was called before. *)
Theorem graceful_exit_terminates code w warns argss :
  let loaded := ProcessExit.load (ProcessExit.mkProcess ProcessExit.NativeExit None warns) in
  let w' := snd (gracefulExit code w) in
  w' = addTimers w [code]
  /\ ProcessExit.terminated
       (fireExitTimers (fst loaded) (skipn (List.length (exitTimers w)) (exitTimers w'))
          (ProcessExit.run (fst loaded) (map ProcessExit.ProcessExitCall argss)
             (snd loaded)))
     = Some (Some code).
Proof.
  simpl. split; [reflexivity|]. rewrite skipn_length_app.
  rewrite run_loaded by reflexivity.
  assert (E : firstExit (map ProcessExit.ProcessExitCall argss) = None)
    by (induction argss; simpl; auto).
  rewrite E. reflexivity.
Qed.

(** X19.  A folder that is not configured is not scanned: when the
    user-installed path and the development path are unset or empty,
    [scanPlugins] depends on the scanners only through the scan of the
    builtin folder. *)
Theorem unconfigured_folders_not_scanned
    (scan1 scan2 scan1' scan2' :
       string -> string -> bool -> list IMessage * TPromise (list IPluginDescription))
    builtinPluginsPath userInstallPath pluginDevelopmentPath version w :
  truthy userInstallPath = false ->
  truthy pluginDevelopmentPath = false ->
  scan1 version builtinPluginsPath true = scan1' version builtinPluginsPath true ->
  scanPlugins scan1 scan2 builtinPluginsPath userInstallPath pluginDevelopmentPath
    version w
  = scanPlugins scan1' scan2' builtinPluginsPath userInstallPath pluginDevelopmentPath
      version w.
Proof.
  intros Hu Hd E. unfold scanPlugins. rewrite E, Hu, Hd.
  destruct userInstallPath, pluginDevelopmentPath; reflexivity.
Qed.

(* ================================================================== *)
(** ** The further theorems at concrete hosts                          *)
(* ================================================================== *)

Import Example2.

Lemma no_shadowing_id :
  ~ In "hasOwnProperty" (ids ([pluginA; pluginB] ++ [userA] ++ [devA])).
Proof. simpl. intuition discriminate. Qed.

(** Three sources that share the id of [pluginA]: the development
    description is merged for it. *)
Lemma merged_iff_last_witness :
  exists merged,
    fst (mergePlugins [pluginA; pluginB] [userA] [devA] []) = Returned merged
    /\ NoDup (ids merged)
    /\ forall p, In p merged
                 <-> id p <> "__proto__"
                     /\ findLast (id p) ([pluginA; pluginB] ++ [userA] ++ [devA]) = Some p.
Proof.
  exact (merged_iff_last [pluginA; pluginB] [userA] [devA] [] no_shadowing_id).
Defined.

(** Three descriptions of three ids, one of them [__proto__]. *)
Lemma merge_without_conflict_witness :
  NoDup (ids ([pluginB] ++ [userA] ++ [protoUser]))
  /\ exists merged,
       mergePlugins [pluginB] [userA] [protoUser] []
       = (Returned merged, [] ++ map loadingInfo [protoUser])
       /\ Permutation merged (filter storable ([pluginB] ++ [userA] ++ [protoUser])).
Proof.
  assert (Hnd : NoDup (ids ([pluginB] ++ [userA] ++ [protoUser]))).
  { simpl. repeat constructor; simpl; intuition discriminate. }
  assert (Hs : ~ In "hasOwnProperty" (ids ([pluginB] ++ [userA] ++ [protoUser]))).
  { simpl. intuition discriminate. }
  split; [exact Hnd|].
  exact (merge_without_conflict [pluginB] [userA] [protoUser] [] Hnd Hs).
Defined.

(** The three sources of [merged_iff_last_witness], as one source. *)
Lemma merge_is_positional_witness :
  fst (mergePlugins [pluginA; pluginB] [userA] [devA] [])
  = fst (mergePlugins ([pluginA; pluginB] ++ [userA] ++ [devA]) [] []
           [loadingInfo devA]).
Proof.
  exact (merge_is_positional [pluginA; pluginB] [userA] [devA] [] [loadingInfo devA]
           no_shadowing_id).
Defined.

(** The event of [pkg.json], dispatched in the workspace [/ws]. *)
Lemma dispatched_events_were_declared_witness :
  let w := withRegistry [pluginA; pluginB] in
  let w' := snd (handleEagerPlugins joinPaths onlyPkgJson inWorkspace w) in
  In "workspaceContains:pkg.json" (newlyActivated w w')
  /\ ("workspaceContains:pkg.json" = "*"
      \/ (In "workspaceContains:pkg.json" (allEvents (registry w))
          /\ exists folder n,
               workspaceRoot inWorkspace = Some folder
               /\ "workspaceContains:pkg.json" = workspaceContains n
               /\ n <> ""
               /\ In (joinPaths folder n, n) (newlyProbed w w')
               /\ onlyPkgJson (joinPaths folder n) = true)).
Proof.
  assert (Hin : In "workspaceContains:pkg.json"
                  (newlyActivated (withRegistry [pluginA; pluginB])
                     (snd (handleEagerPlugins joinPaths onlyPkgJson inWorkspace
                             (withRegistry [pluginA; pluginB])))))
    by (vm_compute; auto).
  split; [exact Hin|].
  exact (dispatched_events_were_declared joinPaths onlyPkgJson inWorkspace
           (withRegistry [pluginA; pluginB]) "workspaceContains:pkg.json" Hin).
Defined.

(** No tests path: a runner that would fail is not asked for. *)
Lemma tests_not_configured_witness :
  testsConfigured noWorkspace = false
  /\ handlePluginTests failingRunner noWorkspace emptyWorld = (Fulfilled tt, emptyWorld).
Proof.
  split; [reflexivity|].
  exact (tests_not_configured failingRunner noWorkspace emptyWorld eq_refl).
Defined.

(** [run] throws at once: the promise rejects and no exit is armed. *)
Lemma tests_arm_exit_when_settled_witness :
  testsConfigured testing = true
  /\ handlePluginTests throwingRunner testing emptyWorld
     = (Rejected (ErrorValue "Error: no tests"), emptyWorld)
  /\ exists path armed,
       pluginTestsPath (env (contextService testing)) = Some path
       /\ exitTimers (snd (handlePluginTests throwingRunner testing emptyWorld))
          = exitTimers emptyWorld ++ armed
       /\ (forall code, In code armed -> code = 0%Z \/ code = 1%Z).
Proof.
  split; [reflexivity|]. split; [reflexivity|].
  destruct (tests_arm_exit_when_settled throwingRunner testing emptyWorld eq_refl)
    as (_ & _ & _ & _ & _ & _ & path & armed & H1 & H2 & H3 & _).
  exists path, armed. auto.
Defined.

(** The user-installed scan rejects, no tests are configured: [start]
    fulfils. *)
Lemma start_settles_as_tests_witness :
  existsb isPending
    (map snd (scansOf "/app/extensions" scanBuiltinOnly scanBuiltinOnly
                (env (contextService noWorkspace)))) = false
  /\ fst (start "/app/extensions" scanBuiltinOnly scanBuiltinOnly joinPaths
            everythingExists noTestRunner noWorkspace emptyWorld) = Fulfilled tt.
Proof.
  split; [reflexivity|].
  exact (proj2 (start_settles_as_tests "/app/extensions" scanBuiltinOnly scanBuiltinOnly
                  joinPaths everythingExists noTestRunner noWorkspace emptyWorld
                  eq_refl) eq_refl).
Defined.

(** Both configured scans fulfil: [userA] replaces [pluginA]. *)
Lemma start_registers_merged_witness :
  let w' := snd (start "/app/extensions" scanAll scanAll joinPaths onlyPkgJson
                   noTestRunner inWorkspace emptyWorld) in
  map snd (scansOf "/app/extensions" scanAll scanAll (env (contextService inWorkspace)))
  = [Fulfilled [pluginA; pluginB]; Fulfilled [userA]; Fulfilled []]
  /\ registry w' = [userA; pluginB]
  /\ registrationDone w' = [collector w'].
Proof.
  split; [reflexivity|].
  destruct (start_registers_merged "/app/extensions" scanAll scanAll joinPaths
              onlyPkgJson noTestRunner inWorkspace emptyWorld
              [pluginA; pluginB] [userA] [] eq_refl) as ((H1 & _) & H3 & _).
  split; [exact H1 | exact H3].
Defined.

(** The builtin scan never completes. *)
Lemma start_waits_for_all_scans_witness :
  let r := start "/app/extensions" scanBuiltinPending scanBuiltinPending joinPaths
             everythingExists noTestRunner inWorkspace emptyWorld in
  existsb isPending
    (map snd (scansOf "/app/extensions" scanBuiltinPending scanBuiltinPending
                (env (contextService inWorkspace)))) = true
  /\ fst r = Pending /\ registry (snd r) = [] /\ activated (snd r) = [].
Proof.
  split; [reflexivity|].
  destruct (start_waits_for_all_scans "/app/extensions" scanBuiltinPending
              scanBuiltinPending joinPaths everythingExists noTestRunner inWorkspace
              emptyWorld eq_refl) as (H1 & _ & H3 & _ & H5 & _).
  split; [exact H1|]. split; [exact H3 | exact H5].
Defined.

Lemma replaced_declares_cargo : declares [pluginA; pluginB] "Cargo.toml".
Proof.
  exists pluginA,
    ["workspaceContains:pkg.json"; "onLanguage:go"; "workspaceContains:Cargo.toml"].
  simpl. auto 10.
Qed.

Lemma merged_not_declares_cargo : ~ declares [userA; pluginB] "Cargo.toml".
Proof.
  intros (d & evs & Hin & He & Hev). simpl in Hin.
  destruct Hin as [<-|[<-|[]]]; simpl in He; [discriminate He|].
  injection He as <-. simpl in Hev. destruct Hev as [H|[]]. discriminate H.
Qed.

(** [Cargo.toml] is declared by the builtin [pluginA] only, which the
    user-installed [userA] replaces: it is not probed. *)
Lemma start_ignores_replaced_descriptions_witness :
  let w' := snd (start "/app/extensions" scanAll scanAll joinPaths everythingExists
                   noTestRunner inWorkspace emptyWorld) in
  declares [pluginA; pluginB] "Cargo.toml"
  /\ registry w' = [userA; pluginB]
  /\ (forall path, ~ In (path, "Cargo.toml") (newlyProbed emptyWorld w'))
  /\ ~ In (workspaceContains "Cargo.toml") (newlyActivated emptyWorld w').
Proof.
  split; [exact replaced_declares_cargo|]. split; [reflexivity|].
  exact (start_ignores_replaced_descriptions "/app/extensions" scanAll scanAll
           joinPaths everythingExists noTestRunner inWorkspace emptyWorld
           "Cargo.toml" merged_not_declares_cargo).
Defined.

(** The module loaded a second time. *)
Lemma load_after_patch_cannot_exit_witness :
  let once := snd (ProcessExit.load
                     (ProcessExit.mkProcess ProcessExit.NativeExit None [])) in
  let twice := ProcessExit.load once in
  ProcessExit.process_exit once = ProcessExit.PreventedExit
  /\ ProcessExit.terminated
       (ProcessExit.run (fst twice) [ProcessExit.ExportedExitCall (Some 0%Z)]
          (snd twice)) = None.
Proof.
  split; [reflexivity|].
  exact (load_after_patch_cannot_exit
           (snd (ProcessExit.load (ProcessExit.mkProcess ProcessExit.NativeExit None [])))
           [ProcessExit.ExportedExitCall (Some 0%Z)] eq_refl eq_refl).
Defined.

(** An empty user-installed path and no development path: scanners that
    fail or never complete on every other folder change nothing. *)
Lemma unconfigured_folders_not_scanned_witness :
  truthy (Some "") = false
  /\ scanPlugins scanBuiltinOnly scanAll "/app/extensions" (Some "") None "0.10.0"
       emptyWorld
     = scanPlugins scanOthersPending scanBuiltinPending "/app/extensions" (Some "") None
         "0.10.0" emptyWorld.
Proof.
  split; [reflexivity|].
  exact (unconfigured_folders_not_scanned scanBuiltinOnly scanAll scanOthersPending
           scanBuiltinPending "/app/extensions" (Some "") None "0.10.0" emptyWorld
           eq_refl eq_refl eq_refl).
Defined.

(** Three descriptions that declare [pkg.json] twice, [Cargo.toml] and
    [__proto__], in the workspace [/ws]: two probes. *)
Lemma probes_each_name_once_witness :
  workspaceRoot inWorkspace = Some "/ws"
  /\ probed (snd (handleWorkspaceContainsEagerPlugins joinPaths onlyPkgJson inWorkspace
                    (withRegistry [pluginA; protoNamed; pluginB])))
     = [("/ws/pkg.json", "pkg.json"); ("/ws/Cargo.toml", "Cargo.toml")]
  /\ exists names,
       probed (snd (handleWorkspaceContainsEagerPlugins joinPaths onlyPkgJson inWorkspace
                      (withRegistry [pluginA; protoNamed; pluginB])))
       = [] ++ map (fun n => (joinPaths "/ws" n, n)) names
       /\ forall n,
            (declares [pluginA; protoNamed; pluginB] n -> n <> "__proto__" ->
             count_occ string_dec names n = 1)
            /\ (~ declares [pluginA; protoNamed; pluginB] n \/ n = "__proto__" ->
                count_occ string_dec names n = 0).
Proof.
  split; [reflexivity|]. split; [reflexivity|].
  exact (probes_each_name_once joinPaths onlyPkgJson inWorkspace "/ws"
           (withRegistry [pluginA; protoNamed; pluginB]) eq_refl).
Defined.
